(** * libxcb-cursor, cursor.c: resource parsing and default cursor size

    A shallow embedding of [src/cursor/cursor.c]:
    - [parse_resource_manager], which reads the three entries
      [Xcursor.theme], [Xcursor.size] and [Xft.dpi] out of the root window's
      RESOURCE_MANAGER property;
    - [get_default_size], the ordered fallback that picks the cursor size;
    - [xcb_cursor_context_new] and [xcb_cursor_context_free].

    Conventions.  A C string is the list of its characters before the
    terminating NUL; a [char *] that may be [NULL] is an [option].  [int] is
    32 bits wide in two's complement and [long] 64 bits (LP64); conversions
    that leave the range wrap around, which is written out with [to_int32]
    and [to_uint32].  The one signed product of the source, dpi * 16, is
    undefined when it overflows: what a build makes of it is a parameter of
    [get_default_size].  The character class used by [isspace] is that of
    the "C" locale.  Whether [calloc] finds its memory is an input of the
    constructor.  [asprintf] and [strdup] are taken to find the memory they
    ask for; the branches of the source that handle their failure are kept
    in the model. *)

From Stdlib Require Import String Ascii ZArith List Bool Lia.
Import ListNotations.

Local Open Scope Z_scope.

(** ** C strings and the C library functions the source calls *)

Abbreviation cstring := (list ascii).

Definition lit (s : string) : cstring := list_ascii_of_string s.
Arguments lit s%_string.

Definition NUL : ascii := "000"%char.
Definition LF : ascii := "010"%char.
Definition COLON : ascii := ":"%char.

Definition code (ch : ascii) : Z := Z.of_N (N_of_ascii ch).

(** [isspace] in the "C" locale: space, and the controls from TAB to CR. *)
Definition isspace (ch : ascii) : bool :=
  (code ch =? 32) || ((9 <=? code ch) && (code ch <=? 13)).

Definition isdigit (ch : ascii) : bool :=
  (48 <=? code ch) && (code ch <=? 57).

(** What ["%.*s"] prints of a buffer: its characters up to the first NUL. *)
Fixpoint until_nul (buf : list ascii) : cstring :=
  match buf with
  | [] => []
  | ch :: buf' => if Ascii.eqb ch NUL then [] else ch :: until_nul buf'
  end.

(** [asprintf(&rm, "%.*s", n, buf)]: at most [n] characters of [buf], and
    none from the first NUL on.  [None] stands for the result -1. *)
Definition asprintf_s (n : nat) (buf : list ascii) : option cstring :=
  Some (until_nul (firstn n buf)).

(** [strdup]: a fresh copy; [None] stands for [NULL]. *)
Definition strdup (s : cstring) : option cstring := Some s.

(** [strchr(s, ch)] as the offset of the first [ch] in [s]. *)
Fixpoint strchr (s : cstring) (ch : ascii) : option nat :=
  match s with
  | [] => None
  | x :: s' =>
      if Ascii.eqb x ch then Some O
      else match strchr s' ch with
           | Some k => Some (S k)
           | None => None
           end
  end.

(** [strcmp]: the difference of the first two characters that differ, the
    terminator counting as 0. *)
Fixpoint strcmp (a b : cstring) : Z :=
  match a, b with
  | [], [] => 0
  | [], y :: _ => 0 - code y
  | x :: _, [] => code x
  | x :: a', y :: b' => if code x =? code y then strcmp a' b' else code x - code y
  end.

(** [strspn(s, delim)] and [strcspn(s, delim)], returned as the remaining
    string and as the pair of the span and what follows it. *)
Definition is_delim (delim : cstring) (ch : ascii) : bool :=
  existsb (Ascii.eqb ch) delim.

Fixpoint skip_delims (delim s : cstring) : cstring :=
  match s with
  | [] => []
  | ch :: s' => if is_delim delim ch then skip_delims delim s' else s
  end.

Fixpoint span_token (delim s : cstring) : cstring * cstring :=
  match s with
  | [] => ([], [])
  | ch :: s' =>
      if is_delim delim ch then ([], s)
      else let (tok, rest) := span_token delim s' in (ch :: tok, rest)
  end.

(** [strtok_r(str, delim, &saveptr)].  With [str = NULL] the scan resumes at
    [saveptr].  Leading delimiters are skipped; at the end of the string the
    result is [NULL] ([None]); otherwise the token runs to the next delimiter,
    which is overwritten by NUL, and [saveptr] is left behind it. *)
Definition strtok_r (str : option cstring) (delim : cstring) (saveptr : cstring)
  : option cstring * cstring :=
  let s := match str with Some s => s | None => saveptr end in
  match skip_delims delim s with
  | [] => (None, [])
  | ch :: s' =>
      let (tok, rest) := span_token delim (ch :: s') in
      (Some tok, match rest with [] => [] | _ :: rest' => rest' end)
  end.

(** Fixed-width integers. *)
Definition INT_MAX : Z := 2147483647.
Definition INT_MIN : Z := -2147483648.
Definition LONG_MAX : Z := 9223372036854775807.
Definition LONG_MIN : Z := -9223372036854775808.

Definition to_uint32 (z : Z) : Z := z mod 4294967296.
Definition to_uint16 (z : Z) : Z := z mod 65536.
Definition to_int32 (z : Z) : Z :=
  let u := to_uint32 z in if u <=? INT_MAX then u else u - 4294967296.

(** [atoi(s)] is [(int) strtol(s, NULL, 10)]: white space is skipped, one
    sign is accepted, the digits that follow are read, and anything after
    them is ignored; no digits give 0.  [strtol] saturates at the range of
    [long]. *)
Fixpoint skip_spaces (s : cstring) : cstring :=
  match s with
  | [] => []
  | ch :: s' => if isspace ch then skip_spaces s' else s
  end.

Fixpoint read_digits (acc : Z) (s : cstring) : Z :=
  match s with
  | [] => acc
  | ch :: s' => if isdigit ch then read_digits (acc * 10 + (code ch - 48)) s' else acc
  end.

Definition strtol (s : cstring) : Z :=
  match skip_spaces s with
  | ch :: s' =>
      if Ascii.eqb ch "-"%char then Z.max LONG_MIN (- read_digits 0 s')
      else if Ascii.eqb ch "+"%char then Z.min LONG_MAX (read_digits 0 s')
      else Z.min LONG_MAX (read_digits 0 (ch :: s'))
  | [] => 0
  end.

Definition atoi (s : cstring) : Z := to_int32 (strtol s).

(** ** The data model *)

(** Modelled from the spec: the header [cursor.h], which declares the
    indices of the array [rm] and the context structure, is not part of the
    sources at hand.  The three indices are the three recognized keys; the
    context holds the root window, the identifier of the cursor font, the
    reply and the format of the render query, the array [rm] and the size. *)
Inductive rm_index : Type := RM_XCURSOR_THEME | RM_XCURSOR_SIZE | RM_XFT_DPI.

Record rm_array : Type := mk_rm {
  rm_theme : option cstring;
  rm_size : option cstring;
  rm_dpi : option cstring
}.

Record xcb_cursor_context_t : Type := mk_context {
  root : Z;
  cursor_font : Z;
  pf_reply : option Z;
  pict_format : option Z;
  rm : rm_array;
  size : Z
}.

Definition rm_get (c : xcb_cursor_context_t) (i : rm_index) : option cstring :=
  match i with
  | RM_XCURSOR_THEME => rm_theme (rm c)
  | RM_XCURSOR_SIZE => rm_size (rm c)
  | RM_XFT_DPI => rm_dpi (rm c)
  end.

Definition rm_set (c : xcb_cursor_context_t) (i : rm_index) (v : option cstring)
  : xcb_cursor_context_t :=
  let a := rm c in
  let a' := match i with
            | RM_XCURSOR_THEME => mk_rm v (rm_size a) (rm_dpi a)
            | RM_XCURSOR_SIZE => mk_rm (rm_theme a) v (rm_dpi a)
            | RM_XFT_DPI => mk_rm (rm_theme a) (rm_size a) v
            end in
  mk_context (root c) (cursor_font c) (pf_reply c) (pict_format c) a' (size c).

Definition set_size (c : xcb_cursor_context_t) (n : Z) : xcb_cursor_context_t :=
  mk_context (root c) (cursor_font c) (pf_reply c) (pict_format c) (rm c) n.

(** What [calloc] hands out: every pointer [NULL], every number 0. *)
Definition zeroed_context : xcb_cursor_context_t :=
  mk_context 0 0 None None (mk_rm None None None) 0.

(** The reply to the property request, as far as the parser looks at it:
    the bytes of the value, whose number is the value length. *)
Record xcb_get_property_reply_t : Type := mk_reply {
  value : list ascii
}.

Definition xcb_get_property_value_length (r : xcb_get_property_reply_t) : nat :=
  length (value r).

(** The fields of [xcb_screen_t] that the source reads.  Both dimensions
    are [uint16_t], which the record carries along. *)
Record xcb_screen_t : Type := mk_screen {
  screen_root : Z;
  width_in_pixels : Z;
  height_in_pixels : Z;
  width_is_uint16 : 0 <= width_in_pixels < 65536;
  height_is_uint16 : 0 <= height_in_pixels < 65536
}.

Definition to_uint16_range (z : Z) : 0 <= to_uint16 z < 65536 :=
  Z.mod_pos_bound z 65536 eq_refl.

(** The screen with the given root and dimensions. *)
Definition screen_of (r w h : Z) : xcb_screen_t :=
  mk_screen r (to_uint16 w) (to_uint16 h) (to_uint16_range w) (to_uint16_range h).

(** The process environment, as [getenv] sees it. *)
Definition environ : Type := cstring -> option cstring.

(** ** parse_resource_manager *)

(** The body of the loop from the [strchr] on, for one token [line].  [None]
    is the early return taken when the line has no colon. *)
Definition parse_line (c : xcb_cursor_context_t) (line : cstring)
  : option xcb_cursor_context_t :=
  match strchr line COLON with
  | None => None
  | Some k =>
      let key := firstn k line in
      let sep := skip_spaces (skipn (S k) line) in
      if strcmp key (lit "Xcursor.theme") =? 0 then
        Some (rm_set c RM_XCURSOR_THEME (strdup sep))
      else if strcmp key (lit "Xcursor.size") =? 0 then
        Some (rm_set c RM_XCURSOR_SIZE (strdup sep))
      else if strcmp key (lit "Xft.dpi") =? 0 then
        Some (rm_set c RM_XFT_DPI (strdup sep))
      else Some c
  end.

(** The [for] loop.  Every turn takes a non-empty token off the string, so
    one more turn than the string has characters is always enough. *)
Fixpoint parse_loop (fuel : nat) (c : xcb_cursor_context_t)
    (str : option cstring) (saveptr : cstring) : xcb_cursor_context_t :=
  match fuel with
  | O => c
  | S fuel' =>
      match strtok_r str [LF] saveptr with
      | (None, _) => c
      | (Some line, saveptr') =>
          match parse_line c line with
          | None => c
          | Some c' => parse_loop fuel' c' None saveptr'
          end
      end
  end.

Definition parse_resource_manager (c : xcb_cursor_context_t)
    (rm_reply : option xcb_get_property_reply_t) : xcb_cursor_context_t :=
  match rm_reply with
  | None => c
  | Some r =>
      let rm_length := xcb_get_property_value_length r in
      if Nat.eqb rm_length 0 then c
      else match asprintf_s rm_length (value r) with
           | None => c
           | Some rm => parse_loop (S (length rm)) c (Some rm) []
           end
  end.

(** ** get_default_size *)

(** [dpi * 16 / 72], computed in [int].  When the product dpi * 16 leaves
    the range of [int] the behaviour is undefined in C, and what comes out
    is a matter of the build: a product that wraps around and is then
    divided gives one number, a quotient computed in a wider type another.
    The model takes what the build makes of a dpi whose product overflows
    as a parameter, [overflow], and assumes nothing about it. *)
Definition dpi_to_size (overflow : Z -> Z) (dpi : Z) : Z :=
  if (INT_MIN <=? dpi * 16) && (dpi * 16 <=? INT_MAX)
  then Z.quot (dpi * 16) 72
  else overflow dpi.

(** Two builds: in the first the product wraps around in two's complement
    and is divided after that, in the second the quotient is computed
    without loss. *)
Definition wraps : Z -> Z := fun dpi => Z.quot (to_int32 (dpi * 16)) 72.
Definition widens : Z -> Z := fun dpi => Z.quot (dpi * 16) 72.

Definition get_default_size (overflow : Z -> Z) (getenv : environ)
    (c : xcb_cursor_context_t) (screen : xcb_screen_t) : Z :=
  match getenv (lit "XCURSOR_SIZE") with
  | Some env => to_uint32 (atoi env)
  | None =>
      match rm_get c RM_XCURSOR_SIZE with
      | Some v => to_uint32 (atoi v)
      | None =>
          let dim :=
            to_uint16 (if height_in_pixels screen <? width_in_pixels screen
                       then height_in_pixels screen
                       else width_in_pixels screen) in
          let by_screen := to_uint32 (Z.quot dim 48) in
          match rm_get c RM_XFT_DPI with
          | Some v =>
              let dpi := atoi v in
              if dpi >? 0
              then to_uint32 (dpi_to_size overflow dpi)
              else by_screen
          | None => by_screen
          end
      end
  end.

(** ** xcb_cursor_context_new *)

(** What the connection answers to the requests the constructor sends. *)
Record xcb_connection_t : Type := mk_conn {
  first_screen : xcb_screen_t;
  resource_manager : option xcb_get_property_reply_t;
  pict_formats : option Z;
  argb32_format : option Z;
  generated_id : Z
}.

(** What [calloc] answers, which is not the constructor's to decide: a
    block, or [NULL] with a number left in [errno]. *)
Inductive calloc_answer : Type :=
| Block
| NoMemory (errno : Z).

Definition ENOMEM : Z := 12.

(** [calloc(1, sizeof(struct xcb_cursor_context_t))]: a block in which
    every pointer is [NULL] and every number 0, or [NULL], for which the
    right side stands, with what is in [errno] then. *)
Definition calloc_context (a : calloc_answer) : xcb_cursor_context_t + Z :=
  match a with
  | Block => inl zeroed_context
  | NoMemory errno => inr errno
  end.

(** The result is the returned [int] and what is left in [*ctx]. *)
Definition xcb_cursor_context_new (overflow : Z -> Z) (calloc : calloc_answer)
    (getenv : environ) (conn : xcb_connection_t)
  : Z * option xcb_cursor_context_t :=
  match calloc_context calloc with
  | inr errno => (- errno, None)
  | inl c =>
      let screen := first_screen conn in
      let c := mk_context (screen_root screen) (generated_id conn)
                          (pf_reply c) (pict_format c) (rm c) (size c) in
      let c := parse_resource_manager c (resource_manager conn) in
      let c := mk_context (root c) (cursor_font c)
                          (pict_formats conn) (argb32_format conn) (rm c) (size c) in
      (0, Some (set_size c (get_default_size overflow getenv c screen)))
  end.

(** The table a blob parses to: the parser as the constructor runs it, on a
    fresh context. *)
Definition parse (blob : option (list ascii)) : xcb_cursor_context_t :=
  parse_resource_manager zeroed_context
    (match blob with Some b => Some (mk_reply b) | None => None end).



(** ** xcb_cursor_context_free *)

(** The destructor works on addresses, so it is modelled over a heap: the
    blocks that [malloc] and its relatives have handed out and that are not
    yet freed, and for the blocks that hold a context the pointers stored in
    it.  [Undefined] is what the C standard leaves undefined: reading
    through a null or dangling pointer, freeing what is not allocated. *)
Definition pointer : Type := Z.
Definition NULL : pointer := 0.

Record context_block : Type := mk_block {
  b_rm_theme : pointer;
  b_rm_size : pointer;
  b_rm_dpi : pointer;
  b_pf_reply : pointer
}.

Record heap : Type := mk_heap {
  live : list pointer;
  contexts : list (pointer * context_block)
}.

Inductive outcome (A : Type) : Type :=
| Returns (a : A)
| Undefined.
Arguments Returns {A} a.
Arguments Undefined {A}.

Definition bind {A B : Type} (m : outcome A) (k : A -> outcome B) : outcome B :=
  match m with
  | Returns a => k a
  | Undefined => Undefined
  end.

Notation "x <- m ;; k" := (bind m (fun x => k))
  (at level 61, m at next level, right associativity).

Definition is_live (h : heap) (p : pointer) : bool :=
  existsb (Z.eqb p) (live h).

Fixpoint lookup_block (p : pointer) (l : list (pointer * context_block))
  : option context_block :=
  match l with
  | [] => None
  | (q, b) :: l' => if p =? q then Some b else lookup_block p l'
  end.

(** [free(p)]: nothing for [NULL], the release of a live block, and
    undefined otherwise. *)
Definition free (h : heap) (p : pointer) : outcome heap :=
  if p =? NULL then Returns h
  else if is_live h p
       then Returns (mk_heap (remove Z.eq_dec p (live h)) (contexts h))
       else Undefined.

(** The read of a member of [*c]. *)
Definition load (h : heap) (c : pointer) : outcome context_block :=
  if c =? NULL then Undefined
  else if is_live h c
       then match lookup_block c (contexts h) with
            | Some b => Returns b
            | None => Undefined
            end
       else Undefined.

(** The macro [FREE(p)]: [if (p) free(p)]. *)
Definition FREE (h : heap) (p : pointer) : outcome heap :=
  if negb (p =? NULL) then free h p else Returns h.

Definition xcb_cursor_context_free (h : heap) (c : pointer) : outcome heap :=
  b <- load h c ;;
  h <- FREE h (b_rm_theme b) ;;
  b <- load h c ;;
  h <- FREE h (b_rm_size b) ;;
  b <- load h c ;;
  h <- FREE h (b_rm_dpi b) ;;
  b <- load h c ;;
  h <- free h (b_pf_reply b) ;;
  free h c.

(** ** Vocabulary of the statements *)

(** The environment without any variable, and the one that has
    XCURSOR_SIZE alone, with the value [v]. *)
Definition no_env : environ := fun _ => None.

Definition env_size (v : cstring) : environ :=
  fun name => if strcmp name (lit "XCURSOR_SIZE") =? 0 then Some v else None.

(** The text cut into lines at every LF, and the lines that are not empty:
    these are the tokens that [strtok_r] hands to the loop one by one. *)
Fixpoint split_lines (s : list ascii) : list (list ascii) :=
  match s with
  | [] => [[]]
  | ch :: s' =>
      if Ascii.eqb ch LF then [] :: split_lines s'
      else match split_lines s' with
           | l :: ls => (ch :: l) :: ls
           | [] => [[ch]]
           end
  end.

Definition nonempty (l : list ascii) : bool :=
  match l with [] => false | _ :: _ => true end.

Definition nonempty_lines (s : list ascii) : list (list ascii) :=
  filter nonempty (split_lines s).

(** Lines put back into a text, each closed by LF. *)
Definition unlines (ls : list (list ascii)) : list ascii :=
  concat (map (fun l => l ++ [LF]) ls).

(** The loop body run over a list of lines, stopping for good at the first
    line that has no colon. *)
Fixpoint run_lines (c : xcb_cursor_context_t) (ls : list cstring)
  : xcb_cursor_context_t :=
  match ls with
  | [] => c
  | l :: ls' =>
      match parse_line c l with
      | None => c
      | Some c' => run_lines c' ls'
      end
  end.

(** What a line with a colon does to the context: the three comparisons of
    the source, on the key and the value the line splits into. *)
Definition assign (c : xcb_cursor_context_t) (key v : cstring)
  : xcb_cursor_context_t :=
  if strcmp key (lit "Xcursor.theme") =? 0 then rm_set c RM_XCURSOR_THEME (strdup v)
  else if strcmp key (lit "Xcursor.size") =? 0 then rm_set c RM_XCURSOR_SIZE (strdup v)
  else if strcmp key (lit "Xft.dpi") =? 0 then rm_set c RM_XFT_DPI (strdup v)
  else c.

(** Whether a NUL is among the characters. *)
Definition has_nul (l : list ascii) : bool := existsb (Ascii.eqb NUL) l.

(** The lines of a text that is cut at its first NUL: the lines before the
    one with the NUL, and of that one the part before the NUL. *)
Fixpoint cut_split (ls : list (list ascii)) : list (list ascii) :=
  match ls with
  | [] => []
  | l :: ls' => if has_nul l then [until_nul l] else l :: cut_split ls'
  end.

Fixpoint cut_lines (ls : list (list ascii)) : list (list ascii) :=
  match ls with
  | [] => []
  | l :: ls' =>
      if has_nul l then filter nonempty [until_nul l] else l :: cut_lines ls'
  end.

(** The name that the source compares the key with, for each index. *)
Definition key_name (i : rm_index) : cstring :=
  match i with
  | RM_XCURSOR_THEME => lit "Xcursor.theme"
  | RM_XCURSOR_SIZE => lit "Xcursor.size"
  | RM_XFT_DPI => lit "Xft.dpi"
  end.

(** Two blobs that set [Xft.dpi] twice, the second with a line without
    colon in between. *)
Definition blob_dpi_twice : list ascii :=
  lit "Xft.dpi: 96" ++ [LF] ++ lit "Xft.dpi: 192" ++ [LF].

Definition blob_dpi_bad_dpi : list ascii :=
  lit "Xft.dpi: 96" ++ [LF] ++ lit "bad" ++ [LF] ++ lit "Xft.dpi: 192" ++ [LF].

(** The decimal value of a run of digits. *)
Definition decimal (ds : cstring) : Z :=
  fold_left (fun acc ch => acc * 10 + (code ch - 48)) ds 0.

(** A screen of 1920 by 1080. *)
Definition full_hd : xcb_screen_t := screen_of 0 1920 1080.

(** The test [if (p)] of the macro. *)
Definition nonnull (p : pointer) : bool := negb (p =? NULL).

(** The heap after the release of [p], where that is defined. *)
Definition released (h : heap) (p : pointer) : heap :=
  if p =? NULL then h else mk_heap (remove Z.eq_dec p (live h)) (contexts h).

(** The reads and releases of the members, one after the other. *)
Fixpoint free_members (h : heap) (c : pointer)
    (fs : list (context_block -> pointer)) : outcome heap :=
  match fs with
  | [] => Returns h
  | f :: fs' =>
      b <- load h c ;;
      h' <- free h (f b) ;;
      free_members h' c fs'
  end.

(** The blocks that a context owns: its strings that are set, and the
    reply of the render query if there is one. *)
Definition owned (b : context_block) : list pointer :=
  filter nonnull [b_rm_theme b; b_rm_size b; b_rm_dpi b; b_pf_reply b].

(** A heap with one context at 10, that owns the blocks 20, 30 and 40 and
    has no size string, and with one more block at 50. *)
Definition heap_one : heap :=
  mk_heap [10; 20; 30; 40; 50] [(10, mk_block 20 NULL 30 40)].

(** The context with another array [rm]. *)
Definition set_rm (c : xcb_cursor_context_t) (a : rm_array) : xcb_cursor_context_t :=
  mk_context (root c) (cursor_font c) (pf_reply c) (pict_format c) a (size c).

(** The value that a line gives to the entry [i]: the line has a colon, what
    stands before it compares equal to the name of [i], and the value is
    what follows the colon without its leading white space. *)
Definition line_value (i : rm_index) (l : cstring) : option cstring :=
  match strchr l COLON with
  | Some k =>
      if strcmp (firstn k l) (key_name i) =? 0
      then Some (skip_spaces (skipn (S k) l))
      else None
  | None => None
  end.

(** The lines that the loop gets to: those before the first line without a
    colon. *)
Fixpoint scanned (ls : list cstring) : list cstring :=
  match ls with
  | [] => []
  | l :: ls' =>
      match strchr l COLON with
      | Some _ => l :: scanned ls'
      | None => []
      end
  end.

(** The value that the last line with a value for [i] gives, if there is
    such a line. *)
Fixpoint last_value (i : rm_index) (ls : list cstring) : option cstring :=
  match ls with
  | [] => None
  | l :: ls' =>
      match last_value i ls' with
      | Some v => Some v
      | None => line_value i l
      end
  end.

(** What the parser leaves in a value: no LF, no NUL, and no white space at
    the head. *)
Definition trimmed_line (v : cstring) : Prop :=
  ~ In LF v /\ ~ In NUL v /\
  match v with [] => True | ch :: _ => isspace ch = false end.

(** ** parse_resource_manager on the heap *)

(** The parser once more, this time with the blocks it allocates and
    frees.  The memory is the heap of the destructor together with what the
    strings in it hold.  [malloc] is a choice of the block that is handed
    out, of which the statements ask that it is not null and not allocated
    already. *)
Record memory : Type := mk_memory {
  blocks : heap;
  strings : list (pointer * cstring)
}.

Definition allocator : Type := heap -> pointer.

Definition allocator_ok (alloc : allocator) : Prop :=
  forall h, alloc h <> NULL /\ ~ In (alloc h) (live h).

(** An allocator: the block after the largest one in use. *)
Definition next_block : allocator :=
  fun h => 1 + fold_right Z.max 0 (live h).

(** The member [rm[i]] of a context in memory, read and written. *)
Definition member (i : rm_index) (b : context_block) : pointer :=
  match i with
  | RM_XCURSOR_THEME => b_rm_theme b
  | RM_XCURSOR_SIZE => b_rm_size b
  | RM_XFT_DPI => b_rm_dpi b
  end.

Definition set_member (i : rm_index) (b : context_block) (p : pointer)
  : context_block :=
  match i with
  | RM_XCURSOR_THEME => mk_block p (b_rm_size b) (b_rm_dpi b) (b_pf_reply b)
  | RM_XCURSOR_SIZE => mk_block (b_rm_theme b) p (b_rm_dpi b) (b_pf_reply b)
  | RM_XFT_DPI => mk_block (b_rm_theme b) (b_rm_size b) p (b_pf_reply b)
  end.

Fixpoint store_block (c : pointer) (b : context_block)
    (l : list (pointer * context_block)) : list (pointer * context_block) :=
  match l with
  | [] => []
  | (q, b0) :: l' =>
      if c =? q then (q, b) :: l' else (q, b0) :: store_block c b l'
  end.

Fixpoint string_at (p : pointer) (l : list (pointer * cstring)) : option cstring :=
  match l with
  | [] => None
  | (q, s) :: l' => if p =? q then Some s else string_at p l'
  end.

(** A new block that holds the string [s]: what [strdup] and [asprintf]
    allocate. *)
Definition new_string (alloc : allocator) (m : memory) (s : cstring)
  : pointer * memory :=
  let p := alloc (blocks m) in
  (p, mk_memory (mk_heap (p :: live (blocks m)) (contexts (blocks m)))
                ((p, s) :: strings m)).

(** [c->rm[i] = strdup(sep)]: the copy is made, and its address is written
    over the member, whatever that held. *)
Definition assign_m (alloc : allocator) (m : memory) (c : pointer)
    (i : rm_index) (sep : cstring) : outcome memory :=
  let (p, m1) := new_string alloc m sep in
  b <- load (blocks m1) c ;;
  Returns (mk_memory
             (mk_heap (live (blocks m1))
                      (store_block c (set_member i b p) (contexts (blocks m1))))
             (strings m1)).

Definition free_m (m : memory) (p : pointer) : outcome memory :=
  h <- free (blocks m) p ;;
  Returns (mk_memory h (strings m)).

(** The body of the loop from the [strchr] on; [Returns None] is the line
    without colon. *)
Definition parse_line_m (alloc : allocator) (m : memory) (c : pointer)
    (line : cstring) : outcome (option memory) :=
  match strchr line COLON with
  | None => Returns None
  | Some k =>
      let key := firstn k line in
      let sep := skip_spaces (skipn (S k) line) in
      if strcmp key (lit "Xcursor.theme") =? 0 then
        m' <- assign_m alloc m c RM_XCURSOR_THEME sep ;; Returns (Some m')
      else if strcmp key (lit "Xcursor.size") =? 0 then
        m' <- assign_m alloc m c RM_XCURSOR_SIZE sep ;; Returns (Some m')
      else if strcmp key (lit "Xft.dpi") =? 0 then
        m' <- assign_m alloc m c RM_XFT_DPI sep ;; Returns (Some m')
      else Returns (Some m)
  end.

(** The loop, with the [free(rm)] of its two ways out. *)
Fixpoint parse_loop_m (alloc : allocator) (fuel : nat) (m : memory) (c rm : pointer)
    (str : option cstring) (saveptr : cstring) : outcome memory :=
  match fuel with
  | O => Returns m
  | S fuel' =>
      match strtok_r str [LF] saveptr with
      | (None, _) => free_m m rm
      | (Some line, saveptr') =>
          r <- parse_line_m alloc m c line ;;
          match r with
          | None => free_m m rm
          | Some m' => parse_loop_m alloc fuel' m' c rm None saveptr'
          end
      end
  end.

Definition parse_resource_manager_m (alloc : allocator) (m : memory) (c : pointer)
    (rm_reply : option xcb_get_property_reply_t) : outcome memory :=
  match rm_reply with
  | None => Returns m
  | Some r =>
      let rm_length := xcb_get_property_value_length r in
      if Nat.eqb rm_length 0 then Returns m
      else match asprintf_s rm_length (value r) with
           | None => Returns m
           | Some text =>
               let (rm, m1) := new_string alloc m text in
               parse_loop_m alloc (S (length text)) m1 c rm (Some text) []
           end
  end.

(** The loop body over a list of lines, up to the first one without a
    colon. *)
Fixpoint run_lines_m (alloc : allocator) (m : memory) (c : pointer)
    (ls : list cstring) : outcome memory :=
  match ls with
  | [] => Returns m
  | l :: ls' =>
      r <- parse_line_m alloc m c l ;;
      match r with
      | None => Returns m
      | Some m' => run_lines_m alloc m' c ls'
      end
  end.

(** A context in memory that the destructor can be called on: it is
    allocated, and its members are null or allocated blocks of their own. *)
Definition context_ok (h : heap) (c : pointer) (b : context_block) : Prop :=
  c <> NULL /\ In c (live h) /\ lookup_block c (contexts h) = Some b /\
  NoDup (owned b ++ [c]) /\ incl (owned b) (live h).

(** The table that a context in memory stands for: a null member is an
    entry without value, another member an entry with the string that the
    member points to. *)
Definition stands_for (m : memory) (b : context_block) (a : rm_array) : Prop :=
  forall i,
    match rm_get (set_rm zeroed_context a) i with
    | None => member i b = NULL
    | Some s => member i b <> NULL /\ string_at (member i b) (strings m) = Some s
    end.

(** The lines that name the key of the entry [i]. *)
Definition names_key (i : rm_index) (l : cstring) : bool :=
  match line_value i l with Some _ => true | None => false end.

(** The lines that name one of the three keys. *)
Definition names_any (l : cstring) : bool :=
  existsb (fun i => names_key i l) [RM_XCURSOR_THEME; RM_XCURSOR_SIZE; RM_XFT_DPI].

(** The lines of a reply that the loop gets to. *)
Definition reached (r : option xcb_get_property_reply_t) : list cstring :=
  match r with
  | None => []
  | Some r => scanned (nonempty_lines (until_nul (value r)))
  end.

(** ** xcb_cursor_context_new on the heap *)






(** A memory with a context at 10 that has nothing set, and a block at 50. *)
Definition memory_one : memory :=
  mk_memory (mk_heap [10; 50] [(10, mk_block NULL NULL NULL NULL)]) [].

(** A character that is not in a string given by its characters. *)
Ltac not_in_literal :=
  let H := fresh "H" in
  intros H; simpl in H; repeat (destruct H as [H|H]; [discriminate H|]); exact H.

(** ** The tokens of strtok_r are the non-empty lines *)

Lemma is_delim_LF (ch : ascii) : is_delim [LF] ch = Ascii.eqb ch LF.
Proof. unfold is_delim; simpl; apply orb_false_r. Qed.

Arguments is_delim : simpl never.

Lemma split_lines_not_nil (s : list ascii) : split_lines s <> [].
Proof.
  destruct s as [|ch s]; simpl; [discriminate|].
  destruct (Ascii.eqb ch LF); [discriminate|].
  destruct (split_lines s); discriminate.
Qed.

Lemma skip_delims_lines (s : cstring) :
  nonempty_lines (skip_delims [LF] s) = nonempty_lines s.
Proof.
  induction s as [|ch s IH]; simpl; [reflexivity|].
  rewrite is_delim_LF.
  destruct (Ascii.eqb ch LF) eqn:E; [|reflexivity].
  rewrite IH. unfold nonempty_lines; simpl. rewrite E. reflexivity.
Qed.

Lemma skip_delims_length (s : cstring) :
  (length (skip_delims [LF] s) <= length s)%nat.
Proof.
  induction s as [|ch s IH]; simpl; [lia|].
  destruct (is_delim [LF] ch); simpl; lia.
Qed.

Lemma span_token_lines (s : cstring) :
  split_lines s =
  fst (span_token [LF] s) ::
  match snd (span_token [LF] s) with
  | [] => []
  | _ :: r => split_lines r
  end.
Proof.
  induction s as [|ch s IH]; simpl; [reflexivity|].
  rewrite is_delim_LF.
  destruct (Ascii.eqb ch LF) eqn:E; simpl; [reflexivity|].
  rewrite IH. destruct (span_token [LF] s) as [tok rest]; reflexivity.
Qed.

Lemma span_token_length (s : cstring) :
  (length (snd (span_token [LF] s)) <= length s)%nat.
Proof.
  induction s as [|ch s IH]; simpl; [lia|].
  destruct (is_delim [LF] ch); simpl; [lia|].
  destruct (span_token [LF] s); simpl in *; lia.
Qed.

Lemma skip_delims_head (s : cstring) (ch : ascii) (s' : cstring) :
  skip_delims [LF] s = ch :: s' -> Ascii.eqb ch LF = false.
Proof.
  induction s as [|x s IH]; simpl; [discriminate|].
  rewrite is_delim_LF. destruct (Ascii.eqb x LF) eqn:E; [exact IH|].
  intros H; injection H as -> _; exact E.
Qed.

(** [strtok_r] on the separator LF: no token exactly when no non-empty line
    is left; otherwise the first non-empty line, and a strictly shorter
    string to go on with. *)
Lemma strtok_r_lines (s sp : cstring) :
  match strtok_r (Some s) [LF] sp with
  | (None, _) => nonempty_lines s = []
  | (Some tok, sp') =>
      nonempty_lines s = tok :: nonempty_lines sp' /\
      (length sp' < length s)%nat
  end.
Proof.
  unfold strtok_r.
  pose proof (skip_delims_lines s) as Hl.
  pose proof (skip_delims_length s) as Hn.
  destruct (skip_delims [LF] s) as [|ch s'] eqn:E.
  - rewrite <- Hl; reflexivity.
  - pose proof (skip_delims_head _ _ _ E) as Hch.
    pose proof (span_token_lines (ch :: s')) as Hs.
    pose proof (span_token_length (ch :: s')) as Hr.
    destruct (span_token [LF] (ch :: s')) as [tok rest] eqn:Es.
    assert (Htok : nonempty tok = true).
    { simpl in Es. rewrite is_delim_LF, Hch in Es.
      destruct (span_token [LF] s'); injection Es as <- _; reflexivity. }
    simpl fst in Hs; simpl snd in Hs, Hr.
    rewrite <- Hl. unfold nonempty_lines. rewrite Hs. simpl filter.
    rewrite Htok. simpl in Hn, Hr.
    destruct rest as [|x rest']; simpl in *; split; try reflexivity; lia.
Qed.

Lemma strtok_r_resume (delim sp : cstring) :
  strtok_r None delim sp = strtok_r (Some sp) delim [].
Proof. reflexivity. Qed.

Lemma parse_loop_resume (fuel : nat) :
  forall c sp, (length sp < fuel)%nat ->
    parse_loop fuel c None sp = run_lines c (nonempty_lines sp).
Proof.
  induction fuel as [|fuel IH]; intros c sp Hlen; [lia|].
  simpl. rewrite strtok_r_resume.
  pose proof (strtok_r_lines sp []) as H.
  destruct (strtok_r (Some sp) [LF] []) as [[tok|] sp'].
  - cbv beta iota in H. destruct H as [Htok Hlt]. rewrite Htok. simpl.
    destruct (parse_line c tok); [|reflexivity].
    apply IH; lia.
  - rewrite H; reflexivity.
Qed.

Lemma parse_loop_lines (fuel : nat) (c : xcb_cursor_context_t) (s sp : cstring) :
  (length s < fuel)%nat ->
  parse_loop fuel c (Some s) sp = run_lines c (nonempty_lines s).
Proof.
  destruct fuel as [|fuel]; intros Hlen; [lia|].
  simpl.
  pose proof (strtok_r_lines s sp) as H.
  destruct (strtok_r (Some s) [LF] sp) as [[tok|] sp'].
  - cbv beta iota in H. destruct H as [Htok Hlt]. rewrite Htok. simpl.
    destruct (parse_line c tok); [|reflexivity].
    apply parse_loop_resume; lia.
  - rewrite H; reflexivity.
Qed.

(** The parser is the loop body run over the non-empty lines of the text
    that [asprintf] copies out of the reply. *)
Lemma parse_resource_manager_lines (c : xcb_cursor_context_t) (b : list ascii) :
  parse_resource_manager c (Some (mk_reply b)) =
  run_lines c (nonempty_lines (until_nul b)).
Proof.
  unfold parse_resource_manager, xcb_get_property_value_length, asprintf_s.
  simpl value.
  destruct (Nat.eqb (length b) 0) eqn:E.
  - apply Nat.eqb_eq in E. destruct b; [reflexivity|discriminate].
  - rewrite firstn_all. apply parse_loop_lines. lia.
Qed.

(** ** Lines and the end of the text *)

Lemma split_lines_app_LF (a b : list ascii) :
  split_lines (a ++ LF :: b) = split_lines a ++ split_lines b.
Proof.
  induction a as [|ch a IH]; simpl; [reflexivity|].
  destruct (Ascii.eqb ch LF); rewrite IH; [reflexivity|].
  pose proof (split_lines_not_nil a) as Hn.
  destruct (split_lines a); [contradiction|reflexivity].
Qed.

Lemma nonempty_lines_app_LF (a b : list ascii) :
  nonempty_lines (a ++ LF :: b) = nonempty_lines a ++ nonempty_lines b.
Proof. unfold nonempty_lines. rewrite split_lines_app_LF. apply filter_app. Qed.

Lemma split_lines_one (s : list ascii) : ~ In LF s -> split_lines s = [s].
Proof.
  induction s as [|ch s IH]; intros H; simpl; [reflexivity|].
  destruct (Ascii.eqb_spec ch LF) as [->|Hne]; [exfalso; apply H; left; reflexivity|].
  rewrite IH; [reflexivity|]. intros Hin; apply H; right; exact Hin.
Qed.

Lemma nonempty_lines_one (s : list ascii) :
  s <> [] -> ~ In LF s -> nonempty_lines s = [s].
Proof.
  intros Hs H. unfold nonempty_lines. rewrite (split_lines_one s H).
  destruct s; [contradiction|reflexivity].
Qed.

Lemma nonempty_lines_nil : nonempty_lines [] = [].
Proof. reflexivity. Qed.

Lemma until_nul_app_l (a b : list ascii) :
  In NUL a -> until_nul (a ++ b) = until_nul a.
Proof.
  induction a as [|ch a IH]; intros H; [destruct H|]. simpl.
  destruct (Ascii.eqb_spec ch NUL) as [_|Hne]; [reflexivity|].
  rewrite IH; [reflexivity|]. destruct H as [H|H]; [congruence|exact H].
Qed.

Lemma until_nul_app_r (a b : list ascii) :
  ~ In NUL a -> until_nul (a ++ b) = a ++ until_nul b.
Proof.
  induction a as [|ch a IH]; intros H; [reflexivity|]. simpl.
  destruct (Ascii.eqb_spec ch NUL) as [->|Hne]; [exfalso; apply H; left; reflexivity|].
  rewrite IH; [reflexivity|]. intros Hin; apply H; right; exact Hin.
Qed.

Lemma until_nul_id (a : list ascii) : ~ In NUL a -> until_nul a = a.
Proof.
  intros H. rewrite <- (app_nil_r a) at 1. rewrite until_nul_app_r by exact H.
  apply app_nil_r.
Qed.

Lemma until_nul_incl (a : list ascii) (ch : ascii) :
  In ch (until_nul a) -> In ch a.
Proof.
  induction a as [|x a IH]; simpl; [tauto|].
  destruct (Ascii.eqb x NUL); simpl; [tauto|]. intros [H|H]; [left|right]; auto.
Qed.

Lemma until_nul_no_nul (a : list ascii) : ~ In NUL (until_nul a).
Proof.
  induction a as [|x a IH]; simpl; [tauto|].
  destruct (Ascii.eqb_spec x NUL) as [_|Hne]; simpl; [tauto|].
  intros [H|H]; [congruence|contradiction].
Qed.

(** ** The loop body *)

Lemma code_inj (x y : ascii) : code x = code y -> x = y.
Proof.
  unfold code. intros H. apply N2Z.inj in H.
  rewrite <- (ascii_N_embedding x), <- (ascii_N_embedding y), H. reflexivity.
Qed.

Lemma code_NUL (x : ascii) : code x = 0 -> x = NUL.
Proof. intros H. apply code_inj. exact H. Qed.

(** On C strings [strcmp] answers 0 exactly for equal strings. *)
Lemma strcmp_eq (a b : cstring) :
  ~ In NUL a -> ~ In NUL b -> (strcmp a b = 0 <-> a = b).
Proof.
  revert b. induction a as [|x a IH]; intros [|y b] Ha Hb; simpl.
  - tauto.
  - split; [|discriminate]. intros H. exfalso. apply Hb. left.
    apply code_NUL. lia.
  - split; [|discriminate]. intros H. exfalso. apply Ha. left.
    apply code_NUL. exact H.
  - destruct (Z.eqb_spec (code x) (code y)) as [E|E].
    + apply code_inj in E. subst y. rewrite IH.
      * split; [intros ->; reflexivity | intros H; injection H; auto].
      * intros H; apply Ha; right; exact H.
      * intros H; apply Hb; right; exact H.
    + split; [lia|]. intros H; injection H as -> _. contradiction.
Qed.

Lemma strcmp_refl (a : cstring) : strcmp a a = 0.
Proof.
  induction a as [|x a IH]; simpl; [reflexivity|].
  rewrite Z.eqb_refl. exact IH.
Qed.

Lemma strchr_first (key rest : cstring) (ch : ascii) :
  ~ In ch key -> strchr (key ++ ch :: rest) ch = Some (length key).
Proof.
  induction key as [|x key IH]; intros H; simpl.
  - rewrite Ascii.eqb_refl. reflexivity.
  - destruct (Ascii.eqb_spec x ch) as [->|Hne]; [exfalso; apply H; left; reflexivity|].
    rewrite IH; [reflexivity|]. intros Hin; apply H; right; exact Hin.
Qed.

Lemma strchr_none (s : cstring) (ch : ascii) :
  ~ In ch s -> strchr s ch = None.
Proof.
  induction s as [|x s IH]; intros H; simpl; [reflexivity|].
  destruct (Ascii.eqb_spec x ch) as [->|Hne]; [exfalso; apply H; left; reflexivity|].
  rewrite IH; [reflexivity|]. intros Hin; apply H; right; exact Hin.
Qed.

Lemma strchr_some (s : cstring) (ch : ascii) (k : nat) :
  strchr s ch = Some k ->
  s = firstn k s ++ ch :: skipn (S k) s /\ ~ In ch (firstn k s).
Proof.
  revert k. induction s as [|x s IH]; intros k; simpl; [discriminate|].
  destruct (Ascii.eqb_spec x ch) as [->|Hne].
  - intros H; injection H as <-. simpl. tauto.
  - destruct (strchr s ch) as [j|]; [|discriminate].
    intros H; injection H as <-. destruct (IH j eq_refl) as [E Hn].
    simpl. split; [f_equal; exact E|]. intros [H|H]; [congruence|contradiction].
Qed.

Lemma parse_line_colon (c : xcb_cursor_context_t) (key rest : cstring) :
  ~ In COLON key ->
  parse_line c (key ++ COLON :: rest) = Some (assign c key (skip_spaces rest)).
Proof.
  intros H. unfold parse_line, assign. rewrite (strchr_first key rest COLON H).
  rewrite firstn_app, Nat.sub_diag, firstn_all, firstn_O, app_nil_r.
  replace (skipn (S (length key)) (key ++ COLON :: rest)) with rest.
  - destruct (strcmp key (lit "Xcursor.theme") =? 0); [reflexivity|].
    destruct (strcmp key (lit "Xcursor.size") =? 0); [reflexivity|].
    destruct (strcmp key (lit "Xft.dpi") =? 0); reflexivity.
  - clear H. induction key as [|x key IH]; [reflexivity|exact IH].
Qed.

Lemma parse_line_no_colon (c : xcb_cursor_context_t) (l : cstring) :
  ~ In COLON l -> parse_line c l = None.
Proof. intros H. unfold parse_line. rewrite (strchr_none l COLON H). reflexivity. Qed.

Lemma skip_spaces_split (s : cstring) :
  exists ws, s = ws ++ skip_spaces s /\ forallb isspace ws = true.
Proof.
  induction s as [|ch s [ws [E Hws]]]; [exists []; split; reflexivity|].
  simpl. destruct (isspace ch) eqn:Hs.
  - exists (ch :: ws). simpl. rewrite Hs, Hws. split; [f_equal; exact E|reflexivity].
  - exists []. split; reflexivity.
Qed.

Lemma skip_spaces_head (s : cstring) :
  match skip_spaces s with [] => True | ch :: _ => isspace ch = false end.
Proof.
  induction s as [|ch s IH]; simpl; [exact I|].
  destruct (isspace ch) eqn:Hs; [exact IH|exact Hs].
Qed.

Lemma strchr_in (s : cstring) (ch : ascii) :
  In ch s -> exists k, strchr s ch = Some k.
Proof.
  induction s as [|x s IH]; intros H; [destruct H|]. simpl.
  destruct (Ascii.eqb_spec x ch) as [_|Hne]; [exists O; reflexivity|].
  destruct H as [H|H]; [contradiction|].
  destruct (IH H) as [k Hk]. rewrite Hk. exists (S k). reflexivity.
Qed.

(** A line with a colon never stops the loop. *)
Lemma parse_line_some (c : xcb_cursor_context_t) (l : cstring) :
  In COLON l -> exists c', parse_line c l = Some c'.
Proof.
  intros H. unfold parse_line. destruct (strchr_in l COLON H) as [k Hk].
  rewrite Hk.
  destruct (strcmp _ _ =? 0); [eexists; reflexivity|].
  destruct (strcmp _ _ =? 0); [eexists; reflexivity|].
  destruct (strcmp _ _ =? 0); eexists; reflexivity.
Qed.

Lemma run_lines_app (c : xcb_cursor_context_t) (l1 l2 : list cstring) :
  Forall (fun l => In COLON l) l1 ->
  run_lines c (l1 ++ l2) = run_lines (run_lines c l1) l2.
Proof.
  intros H. revert c. induction H as [|l l1 Hl _ IH]; intros c; [reflexivity|].
  simpl. destruct (parse_line_some c l Hl) as [c' E]. rewrite E. apply IH.
Qed.

Lemma run_lines_abort (c : xcb_cursor_context_t) (l1 l2 : list cstring) (bad : cstring) :
  ~ In COLON bad ->
  run_lines c (l1 ++ bad :: l2) = run_lines c l1.
Proof.
  intros H. revert c. induction l1 as [|l l1 IH]; intros c; simpl.
  - rewrite parse_line_no_colon by exact H. reflexivity.
  - destruct (parse_line c l); [apply IH|reflexivity].
Qed.

Lemma lit_no_nul_theme : ~ In NUL (lit "Xcursor.theme").
Proof. not_in_literal. Qed.

Lemma lit_no_nul_size : ~ In NUL (lit "Xcursor.size").
Proof. not_in_literal. Qed.

Lemma lit_no_nul_dpi : ~ In NUL (lit "Xft.dpi").
Proof. not_in_literal. Qed.

Lemma strcmp_neq (a b : cstring) :
  ~ In NUL a -> ~ In NUL b -> a <> b -> (strcmp a b =? 0) = false.
Proof.
  intros Ha Hb Hne. apply Z.eqb_neq. intros H. apply Hne.
  apply (strcmp_eq a b Ha Hb). exact H.
Qed.

(** A text that ends in a line without a colon, or that goes on after such
    a line: the parser does with it what it does with the part before. *)
Lemma run_lines_bad_tail (c : xcb_cursor_context_t) (pre t : list ascii) :
  (pre = [] \/ exists p, pre = p ++ [LF]) ->
  (t = [] \/
   exists bad rest, t = bad ++ rest /\ bad <> [] /\ ~ In LF bad /\
                    ~ In COLON bad /\ (rest = [] \/ exists q, rest = LF :: q)) ->
  run_lines c (nonempty_lines (pre ++ t)) = run_lines c (nonempty_lines pre).
Proof.
  intros Hpre [->|(bad & rest & -> & Hne & Hlf & Hcol & Hrest)].
  - rewrite app_nil_r. reflexivity.
  - assert (HL : exists L, nonempty_lines (bad ++ rest) = bad :: L).
    { destruct Hrest as [->|[q ->]].
      - rewrite app_nil_r. exists []. apply nonempty_lines_one; assumption.
      - rewrite nonempty_lines_app_LF, nonempty_lines_one by assumption.
        exists (nonempty_lines q). reflexivity. }
    destruct HL as [L HL].
    destruct Hpre as [->|[p ->]].
    + simpl app. rewrite HL. apply (run_lines_abort c [] L bad Hcol).
    + rewrite <- app_assoc. simpl app.
      rewrite !nonempty_lines_app_LF, HL, nonempty_lines_nil, app_nil_r.
      apply run_lines_abort. exact Hcol.
Qed.

(** ** Which lines the loop sees *)

Lemma split_lines_chars (s l : list ascii) (ch : ascii) :
  In l (split_lines s) -> In ch l -> In ch s /\ ch <> LF.
Proof.
  revert l. induction s as [|x s IH]; intros l; simpl.
  - intros [<-|[]] [].
  - destruct (Ascii.eqb_spec x LF) as [->|Hne].
    + intros [<-|Hl] Hch; [destruct Hch|].
      destruct (IH l Hl Hch) as [H1 H2]. split; [right; exact H1|exact H2].
    + destruct (split_lines s) as [|l0 ls] eqn:E.
      * intros [<-|[]] [<-|[]]. split; [left; reflexivity|exact Hne].
      * intros [<-|Hl] Hch.
        -- destruct Hch as [<-|Hch]; [split; [left; reflexivity|exact Hne]|].
           destruct (IH l0 (or_introl eq_refl) Hch) as [H1 H2].
           split; [right; exact H1|exact H2].
        -- destruct (IH l (or_intror Hl) Hch) as [H1 H2].
           split; [right; exact H1|exact H2].
Qed.

Lemma nonempty_lines_chars (s l : list ascii) (ch : ascii) :
  In l (nonempty_lines s) -> In ch l -> In ch s /\ ch <> LF.
Proof.
  unfold nonempty_lines. intros H. apply filter_In in H. destruct H as [H _].
  apply split_lines_chars. exact H.
Qed.

Lemma nonempty_lines_nonempty (s l : list ascii) :
  In l (nonempty_lines s) -> l <> [].
Proof.
  unfold nonempty_lines. intros H. apply filter_In in H. destruct H as [_ H].
  destruct l; [discriminate|discriminate].
Qed.

Lemma has_nul_cons (ch : ascii) (l : list ascii) :
  has_nul (ch :: l) = Ascii.eqb NUL ch || has_nul l.
Proof. reflexivity. Qed.

Lemma cut_split_cons (l : list ascii) (ls : list (list ascii)) :
  cut_split (l :: ls) = if has_nul l then [until_nul l] else l :: cut_split ls.
Proof. reflexivity. Qed.

Lemma cut_lines_cons (l : list ascii) (ls : list (list ascii)) :
  cut_lines (l :: ls) =
  if has_nul l then filter nonempty [until_nul l] else l :: cut_lines ls.
Proof. reflexivity. Qed.

Lemma until_nul_cons (ch : ascii) (b : list ascii) :
  until_nul (ch :: b) = if Ascii.eqb ch NUL then [] else ch :: until_nul b.
Proof. reflexivity. Qed.

Lemma split_lines_cons (ch : ascii) (s : list ascii) :
  split_lines (ch :: s) =
  if Ascii.eqb ch LF then [] :: split_lines s
  else match split_lines s with
       | l :: ls => (ch :: l) :: ls
       | [] => [[ch]]
       end.
Proof. reflexivity. Qed.

Lemma split_lines_until_nul (b : list ascii) :
  split_lines (until_nul b) = cut_split (split_lines b).
Proof.
  induction b as [|ch b IH]; [reflexivity|].
  rewrite until_nul_cons, (split_lines_cons ch b).
  pose proof (split_lines_not_nil b) as Hn.
  destruct (Ascii.eqb_spec ch NUL) as [->|Hnul].
  - destruct (split_lines b) as [|l0 ls0]; [contradiction|]. reflexivity.
  - rewrite split_lines_cons, IH.
    destruct (Ascii.eqb_spec ch LF) as [->|Hlf]; [reflexivity|].
    destruct (split_lines b) as [|l0 ls0]; [contradiction|].
    rewrite !cut_split_cons, has_nul_cons, until_nul_cons.
    destruct (Ascii.eqb_spec NUL ch) as [E|_]; [congruence|].
    destruct (Ascii.eqb_spec ch NUL) as [E|_]; [congruence|].
    rewrite orb_false_l. destruct (has_nul l0); reflexivity.
Qed.

Lemma filter_cut_split (ls : list (list ascii)) :
  filter nonempty (cut_split ls) = cut_lines (filter nonempty ls).
Proof.
  induction ls as [|l ls IH]; [reflexivity|].
  rewrite cut_split_cons. destruct (has_nul l) eqn:E.
  - destruct l as [|x l]; [discriminate|].
    change (filter nonempty ((x :: l) :: ls)) with ((x :: l) :: filter nonempty ls).
    rewrite cut_lines_cons, E. reflexivity.
  - destruct l as [|x l].
    + exact IH.
    + change (filter nonempty ((x :: l) :: cut_split ls))
        with ((x :: l) :: filter nonempty (cut_split ls)).
      change (filter nonempty ((x :: l) :: ls)) with ((x :: l) :: filter nonempty ls).
      rewrite cut_lines_cons, E, IH. reflexivity.
Qed.

Lemma nonempty_lines_until_nul (b : list ascii) :
  nonempty_lines (until_nul b) = cut_lines (nonempty_lines b).
Proof.
  unfold nonempty_lines. rewrite split_lines_until_nul. apply filter_cut_split.
Qed.

Lemma nonempty_lines_unlines (ls : list (list ascii)) :
  Forall (fun l => l <> [] /\ ~ In LF l) ls ->
  nonempty_lines (unlines ls) = ls.
Proof.
  induction 1 as [|l ls [Hne Hlf] _ IH]; [reflexivity|].
  unfold unlines in *. simpl. rewrite <- app_assoc. simpl.
  rewrite nonempty_lines_app_LF, IH, nonempty_lines_one by assumption.
  reflexivity.
Qed.

Lemma nonempty_lines_idem (b : list ascii) :
  nonempty_lines (unlines (nonempty_lines b)) = nonempty_lines b.
Proof.
  apply nonempty_lines_unlines. apply Forall_forall. intros l Hl. split.
  - apply (nonempty_lines_nonempty b l Hl).
  - intros H. destruct (nonempty_lines_chars b l LF Hl H) as [_ Hne].
    apply Hne. reflexivity.
Qed.

(** Two blobs with the same non-empty lines parse alike. *)
Lemma parse_same_lines (c : xcb_cursor_context_t) (b1 b2 : list ascii) :
  nonempty_lines b1 = nonempty_lines b2 ->
  parse_resource_manager c (Some (mk_reply b1)) =
  parse_resource_manager c (Some (mk_reply b2)).
Proof.
  intros H. rewrite !parse_resource_manager_lines, !nonempty_lines_until_nul, H.
  reflexivity.
Qed.

(** ** Later lines overwrite earlier ones *)

Lemma key_name_no_colon (i : rm_index) : ~ In COLON (key_name i).
Proof.
  destruct i; not_in_literal.
Qed.

Lemma assign_own (c : xcb_cursor_context_t) (i : rm_index) (v : cstring) :
  rm_get (assign c (key_name i) v) i = Some v.
Proof. destruct i; reflexivity. Qed.

Lemma assign_other (c : xcb_cursor_context_t) (i : rm_index) (key v : cstring) :
  ~ In NUL key -> key <> key_name i ->
  rm_get (assign c key v) i = rm_get c i.
Proof.
  intros Hnul Hne. unfold assign.
  destruct (Z.eqb_spec (strcmp key (lit "Xcursor.theme")) 0) as [E|_].
  { apply (strcmp_eq _ _ Hnul lit_no_nul_theme) in E.
    destruct i; [contradiction| |]; reflexivity. }
  destruct (Z.eqb_spec (strcmp key (lit "Xcursor.size")) 0) as [E|_].
  { apply (strcmp_eq _ _ Hnul lit_no_nul_size) in E.
    destruct i; [|contradiction|]; reflexivity. }
  destruct (Z.eqb_spec (strcmp key (lit "Xft.dpi")) 0) as [E|_].
  { apply (strcmp_eq _ _ Hnul lit_no_nul_dpi) in E.
    destruct i; [| |contradiction]; reflexivity. }
  reflexivity.
Qed.

Lemma firstn_incl (k : nat) (l : list ascii) (ch : ascii) :
  In ch (firstn k l) -> In ch l.
Proof.
  revert l. induction k as [|k IH]; intros [|x l]; simpl; try tauto.
  intros [H|H]; [left; exact H|right; apply IH; exact H].
Qed.

Lemma run_lines_keeps (i : rm_index) (after : list cstring) :
  Forall (fun l => ~ In NUL l /\ forall r, l <> key_name i ++ COLON :: r) after ->
  forall c, rm_get (run_lines c after) i = rm_get c i.
Proof.
  induction 1 as [|l after [Hnul Hkey] _ IH]; intros c; [reflexivity|].
  simpl. destruct (parse_line c l) as [c'|] eqn:E; [|reflexivity].
  rewrite IH. unfold parse_line in E.
  destruct (strchr l COLON) as [k|] eqn:Ek; [|discriminate].
  destruct (strchr_some l COLON k Ek) as [Hl Hcol].
  assert (Hk : ~ In NUL (firstn k l)).
  { intros H. apply Hnul. apply (firstn_incl k). exact H. }
  assert (Hd : firstn k l <> key_name i).
  { intros H. apply (Hkey (skipn (S k) l)). rewrite <- H. exact Hl. }
  pose proof (assign_other c i (firstn k l) (skip_spaces (skipn (S k) l)) Hk Hd) as Ha.
  unfold assign in Ha.
  destruct (strcmp (firstn k l) (lit "Xcursor.theme") =? 0);
    [injection E as <-; exact Ha|].
  destruct (strcmp (firstn k l) (lit "Xcursor.size") =? 0);
    [injection E as <-; exact Ha|].
  destruct (strcmp (firstn k l) (lit "Xft.dpi") =? 0);
    injection E as <-; exact Ha.
Qed.

(** ** Integer conversions and atoi *)

Lemma to_uint32_range (z : Z) : 0 <= to_uint32 z < 4294967296.
Proof. unfold to_uint32. apply Z.mod_pos_bound. lia. Qed.

Lemma to_uint32_small (z : Z) : 0 <= z < 4294967296 -> to_uint32 z = z.
Proof. unfold to_uint32. intros H. apply Z.mod_small. exact H. Qed.

Lemma to_uint32_negative (z : Z) :
  -4294967296 <= z < 0 -> to_uint32 z = z + 4294967296.
Proof.
  unfold to_uint32. intros H.
  symmetry. apply (Z.mod_unique z 4294967296 (-1)); lia.
Qed.

Lemma to_int32_range (z : Z) : INT_MIN <= to_int32 z <= INT_MAX.
Proof.
  unfold to_int32, INT_MIN, INT_MAX. pose proof (to_uint32_range z) as H.
  destruct (Z.leb_spec (to_uint32 z) 2147483647); lia.
Qed.

Lemma to_int32_id (z : Z) : INT_MIN <= z <= INT_MAX -> to_int32 z = z.
Proof.
  unfold to_int32, INT_MIN, INT_MAX. intros H.
  destruct (Z_lt_le_dec z 0) as [Hneg|Hpos].
  - rewrite to_uint32_negative by lia.
    destruct (Z.leb_spec (z + 4294967296) 2147483647); lia.
  - rewrite to_uint32_small by lia.
    destruct (Z.leb_spec z 2147483647); lia.
Qed.

Lemma atoi_range (s : cstring) : INT_MIN <= atoi s <= INT_MAX.
Proof. apply to_int32_range. Qed.

Lemma read_digits_run (ds rest : cstring) :
  forallb isdigit ds = true ->
  match rest with [] => True | ch :: _ => isdigit ch = false end ->
  forall acc,
    read_digits acc (ds ++ rest) =
    fold_left (fun a ch => a * 10 + (code ch - 48)) ds acc.
Proof.
  intros Hds Hrest. induction ds as [|d ds IH]; intros acc; simpl.
  - destruct rest as [|ch rest]; [reflexivity|]. simpl. rewrite Hrest. reflexivity.
  - simpl in Hds. apply andb_prop in Hds. destruct Hds as [Hd Hds].
    rewrite Hd. apply IH. exact Hds.
Qed.

Lemma read_digits_none (s : cstring) (acc : Z) :
  (forall ch, In ch s -> isdigit ch = false) -> read_digits acc s = acc.
Proof.
  destruct s as [|ch s]; intros H; simpl; [reflexivity|].
  rewrite (H ch (or_introl eq_refl)). reflexivity.
Qed.

Lemma skip_spaces_incl (s : cstring) (ch : ascii) :
  In ch (skip_spaces s) -> In ch s.
Proof.
  induction s as [|x s IH]; simpl; [tauto|].
  destruct (isspace x); [intros H; right; apply IH; exact H|tauto].
Qed.

Lemma digit_not_space (ch : ascii) : isdigit ch = true -> isspace ch = false.
Proof.
  unfold isdigit, isspace. intros H. apply andb_prop in H. destruct H as [H1 H2].
  apply Z.leb_le in H1. apply Z.leb_le in H2.
  destruct (Z.eqb_spec (code ch) 32); [lia|].
  destruct (Z.leb_spec 9 (code ch)); destruct (Z.leb_spec (code ch) 13);
    simpl; try reflexivity; lia.
Qed.

(** The conversion reads the digits at the head of the string and stops at
    the first character that is not a digit. *)
Lemma strtol_digits (d : ascii) (ds rest : cstring) :
  forallb isdigit (d :: ds) = true ->
  match rest with [] => True | ch :: _ => isdigit ch = false end ->
  strtol ((d :: ds) ++ rest) = Z.min LONG_MAX (decimal (d :: ds)).
Proof.
  intros Hds Hrest. unfold strtol, decimal.
  assert (Hd : isdigit d = true).
  { simpl in Hds. apply andb_prop in Hds. tauto. }
  change (skip_spaces ((d :: ds) ++ rest))
    with (if isspace d then skip_spaces (ds ++ rest) else (d :: ds) ++ rest).
  rewrite (digit_not_space d Hd).
  change ((d :: ds) ++ rest) with (d :: (ds ++ rest)) at 1.
  cbv beta iota.
  assert (Hm : Ascii.eqb d "-" = false).
  { destruct (Ascii.eqb_spec d "-"%char) as [->|]; [discriminate Hd|reflexivity]. }
  assert (Hp : Ascii.eqb d "+" = false).
  { destruct (Ascii.eqb_spec d "+"%char) as [->|]; [discriminate Hd|reflexivity]. }
  rewrite Hm, Hp.
  f_equal. exact (read_digits_run (d :: ds) rest Hds Hrest 0).
Qed.

(** A string without any digit converts to 0. *)
Lemma atoi_no_digit (s : cstring) :
  (forall ch, In ch s -> isdigit ch = false) -> atoi s = 0.
Proof.
  intros H. unfold atoi, strtol.
  destruct (skip_spaces s) as [|ch s'] eqn:E; [reflexivity|].
  assert (H' : forall x, In x (ch :: s') -> isdigit x = false).
  { intros x Hx. apply H. apply skip_spaces_incl. rewrite E. exact Hx. }
  rewrite (read_digits_none (ch :: s') 0 H').
  rewrite (read_digits_none s' 0) by (intros x Hx; apply H'; right; exact Hx).
  destruct (Ascii.eqb ch "-"); [reflexivity|].
  destruct (Ascii.eqb ch "+"); reflexivity.
Qed.

(** ** The order of the fallback *)

Section Fallback.

Variable overflow : Z -> Z.
Variable getenv : environ.
Variable c : xcb_cursor_context_t.
Variable screen : xcb_screen_t.

Lemma get_default_size_env (v : cstring) :
  getenv (lit "XCURSOR_SIZE") = Some v ->
  get_default_size overflow getenv c screen = to_uint32 (atoi v).
Proof. intros H. unfold get_default_size. rewrite H. reflexivity. Qed.

Lemma get_default_size_rm (v : cstring) :
  getenv (lit "XCURSOR_SIZE") = None ->
  rm_get c RM_XCURSOR_SIZE = Some v ->
  get_default_size overflow getenv c screen = to_uint32 (atoi v).
Proof. intros H1 H2. unfold get_default_size. rewrite H1, H2. reflexivity. Qed.

Lemma get_default_size_range :
  0 <= get_default_size overflow getenv c screen < 4294967296.
Proof.
  unfold get_default_size.
  destruct (getenv (lit "XCURSOR_SIZE")); [apply to_uint32_range|].
  destruct (rm_get c RM_XCURSOR_SIZE); [apply to_uint32_range|].
  destruct (rm_get c RM_XFT_DPI) as [v|]; [|apply to_uint32_range].
  destruct (atoi v >? 0); apply to_uint32_range.
Qed.

End Fallback.

Lemma atoi_as_uint32 (v : cstring) :
  (0 <= atoi v -> to_uint32 (atoi v) = atoi v) /\
  (atoi v < 0 -> to_uint32 (atoi v) = atoi v + 4294967296).
Proof.
  pose proof (atoi_range v) as H. unfold INT_MIN, INT_MAX in H. split; intros Hs.
  - apply to_uint32_small. lia.
  - apply to_uint32_negative. lia.
Qed.

(** The size guessed from the screen, for dimensions that fit [uint16_t]. *)
Lemma screen_guess (screen : xcb_screen_t) :
  to_uint32
    (Z.quot (to_uint16 (if height_in_pixels screen <? width_in_pixels screen
                        then height_in_pixels screen
                        else width_in_pixels screen)) 48) =
  Z.min (width_in_pixels screen) (height_in_pixels screen) / 48.
Proof.
  pose proof (width_is_uint16 screen) as Hw.
  pose proof (height_is_uint16 screen) as Hh.
  set (w := width_in_pixels screen) in *. set (h := height_in_pixels screen) in *.
  assert (E : (if h <? w then h else w) = Z.min w h).
  { destruct (Z.ltb_spec h w); lia. }
  rewrite E. unfold to_uint16. rewrite (Z.mod_small (Z.min w h)) by lia.
  rewrite Z.quot_div_nonneg by lia.
  apply to_uint32_small. split.
  - apply Z.div_pos; lia.
  - apply Z.div_lt_upper_bound; lia.
Qed.

(** The size guessed from the resolution, while the product stays an [int]. *)
Lemma dpi_guess (overflow : Z -> Z) (dpi : Z) :
  0 < dpi <= 134217727 ->
  to_uint32 (dpi_to_size overflow dpi) = dpi * 16 / 72.
Proof.
  intros H. unfold dpi_to_size, INT_MIN, INT_MAX.
  destruct (Z.leb_spec (-2147483648) (dpi * 16)); [|lia].
  destruct (Z.leb_spec (dpi * 16) 2147483647); [|lia]. simpl.
  rewrite Z.quot_div_nonneg by lia.
  apply to_uint32_small. split.
  - apply Z.div_pos; lia.
  - apply Z.div_lt_upper_bound; lia.
Qed.

(** ** The destructor on the heap *)

Lemma is_live_In (h : heap) (p : pointer) : is_live h p = true <-> In p (live h).
Proof.
  unfold is_live. rewrite existsb_exists. split.
  - intros (q & Hq & E). apply Z.eqb_eq in E. subst q. exact Hq.
  - intros H. exists p. split; [exact H|apply Z.eqb_refl].
Qed.

Lemma free_ok (h : heap) (p : pointer) :
  p = NULL \/ In p (live h) -> free h p = Returns (released h p).
Proof.
  intros H. unfold free, released.
  destruct (Z.eqb_spec p NULL) as [_|Hne]; [reflexivity|].
  destruct H as [H|H]; [contradiction|].
  apply is_live_In in H. rewrite H. reflexivity.
Qed.

Lemma FREE_free (h : heap) (p : pointer) : FREE h p = free h p.
Proof.
  unfold FREE, free. destruct (Z.eqb_spec p NULL); reflexivity.
Qed.

Lemma load_ok (h : heap) (c : pointer) (b : context_block) :
  c <> NULL -> In c (live h) -> lookup_block c (contexts h) = Some b ->
  load h c = Returns b.
Proof.
  intros Hne Hl Hb. unfold load.
  destruct (Z.eqb_spec c NULL) as [E|_]; [contradiction|].
  apply is_live_In in Hl. rewrite Hl, Hb. reflexivity.
Qed.

Lemma released_live (h : heap) (p q : pointer) :
  In q (live (released h p)) <-> In q (live h) /\ (p = NULL \/ q <> p).
Proof.
  unfold released. destruct (Z.eqb_spec p NULL) as [E|Hne]; simpl.
  - tauto.
  - split.
    + intros H. apply in_remove in H. tauto.
    + intros [H [E|Hq]]; [contradiction|]. apply in_in_remove; assumption.
Qed.

Lemma released_contexts (h : heap) (p : pointer) :
  contexts (released h p) = contexts h.
Proof. unfold released. destruct (p =? NULL); reflexivity. Qed.

Lemma filter_nonnull_cons (p : pointer) (l : list pointer) :
  filter nonnull (p :: l) =
  if p =? NULL then filter nonnull l else p :: filter nonnull l.
Proof. simpl. unfold nonnull at 1. destruct (p =? NULL); reflexivity. Qed.

Lemma xcb_cursor_context_free_members (h : heap) (c : pointer) :
  xcb_cursor_context_free h c =
  (h' <- free_members h c [b_rm_theme; b_rm_size; b_rm_dpi; b_pf_reply] ;;
   free h' c).
Proof.
  unfold xcb_cursor_context_free. simpl free_members.
  destruct (load h c) as [b|]; [|reflexivity]. simpl bind.
  rewrite FREE_free. destruct (free h (b_rm_theme b)) as [h1|]; [|reflexivity].
  simpl bind. destruct (load h1 c) as [b1|]; [|reflexivity]. simpl bind.
  rewrite FREE_free. destruct (free h1 (b_rm_size b1)) as [h2|]; [|reflexivity].
  simpl bind. destruct (load h2 c) as [b2|]; [|reflexivity]. simpl bind.
  rewrite FREE_free. destruct (free h2 (b_rm_dpi b2)) as [h3|]; [|reflexivity].
  simpl bind. destruct (load h3 c) as [b3|]; [|reflexivity]. simpl bind.
  destruct (free h3 (b_pf_reply b3)) as [h4|]; reflexivity.
Qed.

Lemma free_members_ok (c : pointer) (b : context_block)
    (fs : list (context_block -> pointer)) :
  c <> NULL ->
  forall h,
    In c (live h) -> lookup_block c (contexts h) = Some b ->
    NoDup (filter nonnull (map (fun f => f b) fs)) ->
    incl (filter nonnull (map (fun f => f b) fs)) (live h) ->
    ~ In c (map (fun f => f b) fs) ->
    exists h',
      free_members h c fs = Returns h' /\
      contexts h' = contexts h /\
      forall q, In q (live h') <->
                In q (live h) /\ ~ In q (filter nonnull (map (fun f => f b) fs)).
Proof.
  intros Hc. induction fs as [|f fs IH]; intros h Hl Hb Hnd Hin Hnc.
  - exists h. simpl. repeat split; tauto.
  - simpl map in *. simpl free_members. rewrite (load_ok h c b Hc Hl Hb).
    simpl bind.
    assert (Hp : f b = NULL \/ In (f b) (live h)).
    { destruct (Z.eqb_spec (f b) NULL) as [E|Hne]; [left; exact E|right].
      apply Hin. rewrite filter_nonnull_cons.
      destruct (Z.eqb_spec (f b) NULL); [contradiction|]. left. reflexivity. }
    rewrite (free_ok h (f b) Hp). simpl bind.
    assert (Hnd' : NoDup (filter nonnull (map (fun g => g b) fs)) /\
                   (f b = NULL \/
                    ~ In (f b) (filter nonnull (map (fun g => g b) fs)))).
    { rewrite filter_nonnull_cons in Hnd.
      destruct (Z.eqb_spec (f b) NULL) as [E|Hne].
      - split; [exact Hnd|left; exact E].
      - inversion Hnd; subst. split; [assumption|right; assumption]. }
    destruct Hnd' as [Hnd1 Hnd2].
    destruct (IH (released h (f b))) as (h' & Hf & Hctx & Hlive).
    + apply released_live. split; [exact Hl|].
      destruct (Z.eq_dec (f b) NULL) as [E|Hne]; [left; exact E|right].
      intros E. apply Hnc. left. symmetry. exact E.
    + rewrite released_contexts. exact Hb.
    + exact Hnd1.
    + intros q Hq. apply released_live. split.
      * apply Hin. rewrite filter_nonnull_cons.
        destruct (f b =? NULL); [|right]; exact Hq.
      * destruct Hnd2 as [E|Hn]; [left; exact E|right].
        intros E. subst q. contradiction.
    + intros H. apply Hnc. right. exact H.
    + exists h'. split; [exact Hf|]. split.
      * rewrite Hctx. apply released_contexts.
      * intros q. rewrite Hlive, released_live, filter_nonnull_cons.
        destruct (Z.eqb_spec (f b) NULL) as [E|Hne]; simpl.
        -- tauto.
        -- split.
           ++ intros [[H1 [H2|H2]] H3]; [contradiction|].
              split; [exact H1|]. intros [H4|H4]; [congruence|contradiction].
           ++ intros [H1 H2]. split; [split; [exact H1|]|].
              ** right. intros E. apply H2. left. symmetry. exact E.
              ** intros H3. apply H2. right. exact H3.
Qed.

(** ** One more line *)

Lemma unlines_chars (ls : list (list ascii)) (ch : ascii) :
  In ch (unlines ls) -> ch = LF \/ exists l, In l ls /\ In ch l.
Proof.
  unfold unlines. induction ls as [|l ls IH]; simpl; [tauto|].
  rewrite !in_app_iff. simpl. intros [[H|[H|[]]]|H].
  - right. exists l. tauto.
  - left. symmetry. exact H.
  - destruct (IH H) as [E|(l' & Hl & Hc)]; [left; exact E|].
    right. exists l'. tauto.
Qed.

(** The lines that the loop is handed can be put together again into a text
    that has these lines. *)
Lemma lines_of_unlines (b : list ascii) (ls more : list (list ascii)) :
  nonempty_lines (until_nul b) = ls ++ more ->
  nonempty_lines (until_nul (unlines ls)) = ls.
Proof.
  intros Hb.
  assert (Hin : forall l, In l ls -> In l (nonempty_lines (until_nul b))).
  { intros l Hl. rewrite Hb. apply in_or_app. left. exact Hl. }
  rewrite until_nul_id.
  - apply nonempty_lines_unlines. apply Forall_forall. intros l Hl. split.
    + apply (nonempty_lines_nonempty _ l (Hin l Hl)).
    + intros H. destruct (nonempty_lines_chars _ l LF (Hin l Hl) H) as [_ Hne].
      apply Hne. reflexivity.
  - intros H. destruct (unlines_chars ls NUL H) as [E|(l & Hl & Hc)].
    + discriminate E.
    + destruct (nonempty_lines_chars _ l NUL (Hin l Hl) Hc) as [Hn _].
      exact (until_nul_no_nul b Hn).
Qed.

(** The parse of a blob is the parse of its lines but the last, and then
    one turn of the loop on the last line, when all lines have a colon. *)
Lemma parse_last_line (c : xcb_cursor_context_t) (b : list ascii)
    (before : list cstring) (line : cstring) :
  nonempty_lines (until_nul b) = before ++ [line] ->
  Forall (fun l => In COLON l) before -> In COLON line ->
  parse_line (parse_resource_manager c (Some (mk_reply (unlines before)))) line =
  Some (parse_resource_manager c (Some (mk_reply b))).
Proof.
  intros Hb Hbefore Hline.
  rewrite !parse_resource_manager_lines, Hb, (lines_of_unlines b before [line] Hb).
  rewrite (run_lines_app c before [line] Hbefore). simpl.
  destruct (parse_line_some (run_lines c before) line Hline) as [c' E].
  rewrite E. reflexivity.
Qed.

(** The lines after some of the lines that the loop is handed can be put
    together again as well. *)
Lemma lines_of_unlines_after (b : list ascii) (ls more : list (list ascii)) :
  nonempty_lines (until_nul b) = more ++ ls ->
  nonempty_lines (until_nul (unlines ls)) = ls.
Proof.
  intros Hb.
  assert (Hin : forall l, In l ls -> In l (nonempty_lines (until_nul b))).
  { intros l Hl. rewrite Hb. apply in_or_app. right. exact Hl. }
  rewrite until_nul_id.
  - apply nonempty_lines_unlines. apply Forall_forall. intros l Hl. split.
    + apply (nonempty_lines_nonempty _ l (Hin l Hl)).
    + intros H. destruct (nonempty_lines_chars _ l LF (Hin l Hl) H) as [_ Hne].
      apply Hne. reflexivity.
  - intros H. destruct (unlines_chars ls NUL H) as [E|(l & Hl & Hc)].
    + discriminate E.
    + destruct (nonempty_lines_chars _ l NUL (Hin l Hl) Hc) as [Hn _].
      exact (until_nul_no_nul b Hn).
Qed.

(** The parse of a blob, seen from one of its lines that the loop gets to:
    the parse of the lines before it, one turn of the loop on the line, and
    the parse of the lines after it. *)
Lemma parse_around_line (c : xcb_cursor_context_t) (b : list ascii)
    (before after : list cstring) (line : cstring) :
  nonempty_lines (until_nul b) = before ++ line :: after ->
  Forall (fun l => In COLON l) before -> In COLON line ->
  exists c1,
    parse_line (parse_resource_manager c (Some (mk_reply (unlines before)))) line =
      Some c1 /\
    parse_resource_manager c (Some (mk_reply b)) =
    parse_resource_manager c1 (Some (mk_reply (unlines after))).
Proof.
  intros Hb Hbefore Hline.
  destruct (parse_line_some (run_lines c before) line Hline) as [c1 E].
  exists c1. rewrite !parse_resource_manager_lines, Hb.
  rewrite (lines_of_unlines b before (line :: after) Hb).
  split; [exact E|].
  rewrite (run_lines_app c before (line :: after) Hbefore).
  simpl run_lines at 1. rewrite E.
  rewrite (lines_of_unlines_after b after (before ++ [line])); [reflexivity|].
  rewrite Hb, <- app_assoc. reflexivity.
Qed.

(** ** The parser as a function of the lines *)

Lemma context_eq (c c' : xcb_cursor_context_t) :
  root c = root c' -> cursor_font c = cursor_font c' ->
  pf_reply c = pf_reply c' -> pict_format c = pict_format c' ->
  size c = size c' ->
  (forall i, rm_get c i = rm_get c' i) ->
  c = c'.
Proof.
  destruct c as [r f p q [t s d] z], c' as [r' f' p' q' [t' s' d'] z']. simpl.
  intros -> -> -> -> -> H.
  pose proof (H RM_XCURSOR_THEME) as H1. pose proof (H RM_XCURSOR_SIZE) as H2.
  pose proof (H RM_XFT_DPI) as H3. simpl in H1, H2, H3. subst. reflexivity.
Qed.

Lemma parse_line_frame (c c' : xcb_cursor_context_t) (l : cstring) :
  parse_line c l = Some c' ->
  root c' = root c /\ cursor_font c' = cursor_font c /\
  pf_reply c' = pf_reply c /\ pict_format c' = pict_format c /\
  size c' = size c.
Proof.
  unfold parse_line. destruct (strchr l COLON) as [k|]; [|discriminate].
  destruct (strcmp _ _ =? 0); [intros H; injection H as <-; repeat split|].
  destruct (strcmp _ _ =? 0); [intros H; injection H as <-; repeat split|].
  destruct (strcmp _ _ =? 0); intros H; injection H as <-; repeat split.
Qed.

Lemma run_lines_frame (ls : list cstring) :
  forall c,
    root (run_lines c ls) = root c /\ cursor_font (run_lines c ls) = cursor_font c /\
    pf_reply (run_lines c ls) = pf_reply c /\
    pict_format (run_lines c ls) = pict_format c /\
    size (run_lines c ls) = size c.
Proof.
  induction ls as [|l ls IH]; intros c; simpl; [repeat split|].
  destruct (parse_line c l) as [c'|] eqn:E; [|repeat split].
  destruct (parse_line_frame c c' l E) as (H1 & H2 & H3 & H4 & H5).
  destruct (IH c') as (G1 & G2 & G3 & G4 & G5).
  rewrite G1, G2, G3, G4, G5. repeat split; assumption.
Qed.

Lemma parse_frame (c : xcb_cursor_context_t) (r : option xcb_get_property_reply_t) :
  root (parse_resource_manager c r) = root c /\
  cursor_font (parse_resource_manager c r) = cursor_font c /\
  pf_reply (parse_resource_manager c r) = pf_reply c /\
  pict_format (parse_resource_manager c r) = pict_format c /\
  size (parse_resource_manager c r) = size c.
Proof.
  destruct r as [[b]|]; [|repeat split].
  rewrite parse_resource_manager_lines. apply run_lines_frame.
Qed.

Lemma key_names_differ (i j : rm_index) : key_name i = key_name j -> i = j.
Proof. destruct i, j; intros H; try reflexivity; discriminate H. Qed.

Lemma key_name_no_nul (i : rm_index) : ~ In NUL (key_name i).
Proof. destruct i; not_in_literal. Qed.

(** What one turn of the loop does to one entry. *)
Lemma parse_line_get (c c' : xcb_cursor_context_t) (l : cstring) (i : rm_index) :
  ~ In NUL l -> parse_line c l = Some c' ->
  rm_get c' i = match line_value i l with
                | Some v => Some v
                | None => rm_get c i
                end.
Proof.
  intros Hnul E. unfold parse_line in E. unfold line_value.
  destruct (strchr l COLON) as [k|] eqn:Ek; [|discriminate].
  assert (Hk : ~ In NUL (firstn k l)).
  { intros H. apply Hnul. apply (firstn_incl k). exact H. }
  assert (Hcmp : forall j, (strcmp (firstn k l) (key_name j) =? 0) = true ->
                           firstn k l = key_name j).
  { intros j H. apply Z.eqb_eq in H.
    apply (strcmp_eq _ _ Hk (key_name_no_nul j)). exact H. }
  assert (Hother : forall j, firstn k l = key_name j -> i <> j ->
                             (strcmp (firstn k l) (key_name i) =? 0) = false).
  { intros j Hj Hij. destruct (strcmp (firstn k l) (key_name i) =? 0) eqn:Hi;
      [|reflexivity].
    exfalso. apply Hij. apply key_names_differ. rewrite <- Hj.
    symmetry. apply Hcmp. exact Hi. }
  change (lit "Xcursor.theme") with (key_name RM_XCURSOR_THEME) in E.
  change (lit "Xcursor.size") with (key_name RM_XCURSOR_SIZE) in E.
  change (lit "Xft.dpi") with (key_name RM_XFT_DPI) in E.
  destruct (strcmp (firstn k l) (key_name RM_XCURSOR_THEME) =? 0) eqn:E1.
  { injection E as <-. destruct i; [rewrite E1; reflexivity| |];
      rewrite (Hother RM_XCURSOR_THEME (Hcmp _ E1)) by discriminate; reflexivity. }
  destruct (strcmp (firstn k l) (key_name RM_XCURSOR_SIZE) =? 0) eqn:E2.
  { injection E as <-. destruct i; [|rewrite E2; reflexivity|];
      rewrite (Hother RM_XCURSOR_SIZE (Hcmp _ E2)) by discriminate; reflexivity. }
  destruct (strcmp (firstn k l) (key_name RM_XFT_DPI) =? 0) eqn:E3.
  { injection E as <-. destruct i; [| |rewrite E3; reflexivity];
      rewrite (Hother RM_XFT_DPI (Hcmp _ E3)) by discriminate; reflexivity. }
  injection E as <-. destruct i; rewrite ?E1, ?E2, ?E3; reflexivity.
Qed.

Lemma run_lines_get (i : rm_index) (ls : list cstring) :
  Forall (fun l => ~ In NUL l) ls ->
  forall c,
    rm_get (run_lines c ls) i =
    match last_value i (scanned ls) with
    | Some v => Some v
    | None => rm_get c i
    end.
Proof.
  induction 1 as [|l ls Hl _ IH]; intros c; [reflexivity|].
  simpl. destruct (parse_line c l) as [c'|] eqn:E.
  - assert (Ek : exists k, strchr l COLON = Some k).
    { unfold parse_line in E. destruct (strchr l COLON) as [k|]; [exists k; reflexivity|discriminate]. }
    destruct Ek as [k Ek]. rewrite Ek. simpl. rewrite IH.
    destruct (last_value i (scanned ls)); [reflexivity|].
    apply parse_line_get; assumption.
  - unfold parse_line in E. destruct (strchr l COLON) as [k|]; [|reflexivity].
    destruct (strcmp _ _ =? 0); [discriminate|].
    destruct (strcmp _ _ =? 0); [discriminate|].
    destruct (strcmp _ _ =? 0); discriminate.
Qed.

Lemma text_lines_no_nul (b : list ascii) :
  Forall (fun l => ~ In NUL l) (nonempty_lines (until_nul b)).
Proof.
  apply Forall_forall. intros l Hl Hin.
  destruct (nonempty_lines_chars _ l NUL Hl Hin) as [Hn _].
  exact (until_nul_no_nul b Hn).
Qed.

Lemma rm_eq (c c' : xcb_cursor_context_t) :
  (forall i, rm_get c i = rm_get c' i) -> rm c = rm c'.
Proof.
  destruct c as [r f p q [t s d] z], c' as [r' f' p' q' [t' s' d'] z']. simpl.
  intros H.
  pose proof (H RM_XCURSOR_THEME) as H1. pose proof (H RM_XCURSOR_SIZE) as H2.
  pose proof (H RM_XFT_DPI) as H3. simpl in H1, H2, H3. subst. reflexivity.
Qed.

Lemma parse_get (c : xcb_cursor_context_t) (b : list ascii) (i : rm_index) :
  rm_get (parse_resource_manager c (Some (mk_reply b))) i =
  match last_value i (scanned (nonempty_lines (until_nul b))) with
  | Some v => Some v
  | None => rm_get c i
  end.
Proof.
  rewrite parse_resource_manager_lines.
  apply run_lines_get. apply text_lines_no_nul.
Qed.

(** ** The constructor, run *)

(** A server with a screen of 1920 by 1080 whose resources name a theme and
    a resolution: the context gets the theme, and the size 96 * 16 / 72, or
    the size of the environment when XCURSOR_SIZE is set. *)
Example context_new_run :
  let conn := mk_conn (screen_of 7 1920 1080)
                (Some (mk_reply (lit "Xcursor.theme: Foo" ++ [LF] ++
                                 lit "Xft.dpi:" ++ ["009"%char] ++ lit "96" ++ [LF])))
                (Some 1) (Some 2) 99 in
  xcb_cursor_context_new wraps Block no_env conn =
    (0, Some (mk_context 7 99 (Some 1) (Some 2)
                (mk_rm (Some (lit "Foo")) None (Some (lit "96"))) 21)) /\
  xcb_cursor_context_new wraps Block (env_size (lit "40")) conn =
    (0, Some (mk_context 7 99 (Some 1) (Some 2)
                (mk_rm (Some (lit "Foo")) None (Some (lit "96"))) 40)) /\
  xcb_cursor_context_new wraps (NoMemory ENOMEM) no_env conn = (-12, None).
Proof. repeat split; reflexivity. Qed.

(** * The specification, statement by statement *)

(** C1, as the code has it.  With XCURSOR_SIZE in the environment, whatever
    its value, the size is [atoi] of the value converted to [uint32_t]: the
    value of [atoi] itself when that is not negative, and 2^32 more when it
    is.  The table and the screen are not looked at.  [atoi] reads the
    digits at the head of the string and stops at the first character that
    is not a digit; a string without digits, the empty one too, gives 0.
    The value [40] gives 40. *)
Theorem env_size_first :
  (forall overflow getenv c screen v,
      getenv (lit "XCURSOR_SIZE") = Some v ->
      get_default_size overflow getenv c screen = to_uint32 (atoi v) /\
      (0 <= atoi v -> get_default_size overflow getenv c screen = atoi v) /\
      (atoi v < 0 -> get_default_size overflow getenv c screen = atoi v + 4294967296) /\
      (forall c' screen',
          get_default_size overflow getenv c' screen' = get_default_size overflow getenv c screen)) /\
  (forall d ds rest,
      forallb isdigit (d :: ds) = true ->
      match rest with [] => True | ch :: _ => isdigit ch = false end ->
      decimal (d :: ds) <= INT_MAX ->
      atoi ((d :: ds) ++ rest) = decimal (d :: ds)) /\
  (forall s, (forall ch, In ch s -> isdigit ch = false) -> atoi s = 0) /\
  (forall overflow c screen,
      get_default_size overflow (env_size (lit "40")) c screen = 40) /\
  (forall overflow c screen,
      get_default_size overflow (env_size []) c screen = 0).
Proof.
  split; [|split; [|split; [|split]]].
  - intros overflow getenv c screen v H.
    rewrite (get_default_size_env overflow getenv c screen v H).
    destruct (atoi_as_uint32 v) as [Hpos Hneg].
    repeat split; try assumption.
    intros c' screen'. apply get_default_size_env. exact H.
  - intros d ds rest Hds Hrest Hmax. unfold atoi.
    rewrite (strtol_digits d ds rest Hds Hrest).
    assert (Hnn : forall l acc, 0 <= acc -> forallb isdigit l = true ->
              0 <= fold_left (fun a ch => a * 10 + (code ch - 48)) l acc).
    { induction l as [|x l IH]; intros acc Hacc Hl; simpl; [exact Hacc|].
      simpl in Hl. apply andb_prop in Hl. destruct Hl as [Hx Hl].
      apply IH; [|exact Hl]. unfold isdigit in Hx. apply andb_prop in Hx.
      destruct Hx as [Hx _]. apply Z.leb_le in Hx. lia. }
    pose proof (Hnn (d :: ds) 0 (Z.le_refl 0) Hds) as H0. fold (decimal (d :: ds)) in H0.
    unfold INT_MAX in Hmax. unfold LONG_MAX.
    rewrite Z.min_r by lia.
    apply to_int32_id. unfold INT_MIN, INT_MAX. lia.
  - exact atoi_no_digit.
  - intros overflow c screen. reflexivity.
  - intros overflow c screen. reflexivity.
Qed.

Lemma env_size_first_witness :
  get_default_size wraps (env_size (lit "40")) zeroed_context full_hd =
  to_uint32 (atoi (lit "40")).
Proof.
  apply (proj1 env_size_first wraps (env_size (lit "40")) zeroed_context full_hd
               (lit "40")).
  reflexivity.
Defined.

(** C1 as it is written fails for a value that [atoi] reads as a negative
    number: the function returns [uint32_t]. *)
Lemma env_size_minus_five :
  (env_size (lit "-5")) (lit "XCURSOR_SIZE") = Some (lit "-5") /\
  atoi (lit "-5") = -5 /\
  get_default_size wraps (env_size (lit "-5")) zeroed_context full_hd = 4294967291 /\
  get_default_size wraps (env_size (lit "-5")) zeroed_context full_hd <> atoi (lit "-5").
Proof. repeat split; try reflexivity. discriminate. Qed.

(** C2, as the code has it.  The function gives a size for every
    environment, table and screen, and the size is a [uint32_t]: between 0
    and 2^32 - 1, never negative.  It is 0 for a screen of no extent and
    nothing set.  A value of XCURSOR_SIZE that [atoi] reads as the negative
    number n comes out as n + 2^32, which is 2^31 at least. *)
Theorem size_is_unsigned :
  (forall overflow getenv c screen,
      0 <= get_default_size overflow getenv c screen < 4294967296) /\
  (forall overflow,
      get_default_size overflow no_env zeroed_context (screen_of 0 0 0) = 0) /\
  (forall overflow getenv c screen v,
      getenv (lit "XCURSOR_SIZE") = Some v -> atoi v < 0 ->
      get_default_size overflow getenv c screen = atoi v + 4294967296 /\
      2147483648 <= get_default_size overflow getenv c screen) /\
  get_default_size wraps (env_size (lit "-5")) zeroed_context full_hd = 4294967291.
Proof.
  split; [|split; [|split]].
  - exact get_default_size_range.
  - reflexivity.
  - intros overflow getenv c screen v H Hneg.
    rewrite (get_default_size_env overflow getenv c screen v H).
    rewrite (proj2 (atoi_as_uint32 v) Hneg).
    pose proof (atoi_range v) as Hr. unfold INT_MIN in Hr. lia.
  - reflexivity.
Qed.

Lemma size_is_unsigned_witness :
  get_default_size wraps (env_size (lit "-5")) zeroed_context full_hd =
    atoi (lit "-5") + 4294967296 /\
  2147483648 <= get_default_size wraps (env_size (lit "-5")) zeroed_context full_hd.
Proof.
  apply (proj1 (proj2 (proj2 size_is_unsigned))
               wraps (env_size (lit "-5")) zeroed_context full_hd (lit "-5")).
  - reflexivity.
  - reflexivity.
Defined.

(** C2 as it is written fails: no input makes the size negative, and the
    value [-5], which [atoi] reads as -5, gives 4294967291. *)
Lemma size_negative_never :
  ~ (exists overflow getenv c screen,
        get_default_size overflow getenv c screen < 0) /\
  atoi (lit "-5") = -5 /\
  get_default_size wraps (env_size (lit "-5")) zeroed_context full_hd <> -5.
Proof.
  split; [|split; [reflexivity|discriminate]].
  intros (overflow & getenv & c & screen & H).
  pose proof (get_default_size_range overflow getenv c screen). lia.
Qed.

(** C3.  A blob with a non-empty line that has no colon: the parse stops at
    that line.  Whatever stands in the line and after it, the table is the
    one that the lines before it give; nothing of the line or of a later
    line gets into it.  For the three lines [Xcursor.theme: Foo], [badline],
    [Xcursor.size: 32] the theme is [Foo] and the size is unset. *)
Theorem malformed_line_aborts :
  (forall (c : xcb_cursor_context_t) (pre bad post : list ascii),
      (pre = [] \/ exists p, pre = p ++ [LF]) ->
      bad <> [] -> ~ In LF bad -> ~ In COLON bad ->
      (post = [] \/ exists q, post = LF :: q) ->
      parse_resource_manager c (Some (mk_reply (pre ++ bad ++ post))) =
      parse_resource_manager c (Some (mk_reply pre))) /\
  (let t := parse (Some (lit "Xcursor.theme: Foo" ++ [LF] ++ lit "badline" ++
                         [LF] ++ lit "Xcursor.size: 32" ++ [LF])) in
   rm_get t RM_XCURSOR_THEME = Some (lit "Foo") /\
   rm_get t RM_XCURSOR_SIZE = None /\
   rm_get t RM_XFT_DPI = None).
Proof.
  split; [|vm_compute; repeat split].
  intros c pre bad post Hpre Hne Hlf Hcol Hpost.
  rewrite !parse_resource_manager_lines.
  destruct (in_dec ascii_dec NUL pre) as [Hn|Hn].
  { rewrite until_nul_app_l by exact Hn. reflexivity. }
  rewrite until_nul_app_r, (until_nul_id pre) by exact Hn.
  apply run_lines_bad_tail; [exact Hpre|].
  destruct (in_dec ascii_dec NUL bad) as [Hb|Hb].
  - rewrite until_nul_app_l by exact Hb.
    destruct (until_nul bad) as [|x b1] eqn:E; [left; reflexivity|].
    right. exists (x :: b1), []. rewrite app_nil_r, <- E.
    repeat split.
    + rewrite E; discriminate.
    + intros H; apply Hlf; apply until_nul_incl; exact H.
    + intros H; apply Hcol; apply until_nul_incl; exact H.
    + left; reflexivity.
  - rewrite until_nul_app_r by exact Hb.
    right. exists bad, (until_nul post). repeat split; try assumption.
    destruct Hpost as [->|[q ->]]; [left; reflexivity|].
    right. exists (until_nul q). reflexivity.
Qed.

Lemma malformed_line_aborts_witness :
  parse_resource_manager zeroed_context
    (Some (mk_reply ((lit "Xcursor.theme: Foo" ++ [LF]) ++ lit "badline" ++
                     (LF :: lit "Xcursor.size: 32" ++ [LF])))) =
  parse_resource_manager zeroed_context
    (Some (mk_reply (lit "Xcursor.theme: Foo" ++ [LF]))).
Proof.
  apply (proj1 malformed_line_aborts).
  - right. exists (lit "Xcursor.theme: Foo"). reflexivity.
  - discriminate.
  - not_in_literal.
  - not_in_literal.
  - right. exists (lit "Xcursor.size: 32" ++ [LF]). reflexivity.
Defined.

(** C4.  Without XCURSOR_SIZE in the environment and without
    [Xcursor.size] in the table: a value of [Xft.dpi] that [atoi] reads as
    a number dpi above 0 gives dpi * 16 / 72, as long as dpi is not above
    134217727; without [Xft.dpi], or with dpi at most 0, the size is the
    smaller of the width and the height of the screen, the height when it
    is below the width and the width otherwise, divided by 48.  All numbers
    here are non-negative, so that the division rounds down.  The value
    [96] gives 21; a screen of 1920 by 1080 gives 22.

    The code computes dpi * 16 in [int].  For a dpi above 134217727 the
    product overflows, which C leaves undefined, and the size is what the
    build makes of it.  For the value [200000000] a build whose product
    wraps around gives 4279759417, where the comment of the function and
    the quotient have 44444444; a build that computes the quotient without
    loss gives 44444444. *)
Theorem dpi_then_screen :
  (forall overflow getenv c screen,
      getenv (lit "XCURSOR_SIZE") = None ->
      rm_get c RM_XCURSOR_SIZE = None ->
      (forall v, rm_get c RM_XFT_DPI = Some v ->
                 0 < atoi v <= 134217727 ->
                 get_default_size overflow getenv c screen = atoi v * 16 / 72) /\
      (forall v, rm_get c RM_XFT_DPI = Some v ->
                 134217727 < atoi v ->
                 INT_MAX < atoi v * 16 /\
                 get_default_size overflow getenv c screen =
                   to_uint32 (overflow (atoi v))) /\
      (rm_get c RM_XFT_DPI = None \/
       (exists v, rm_get c RM_XFT_DPI = Some v /\ atoi v <= 0) ->
       get_default_size overflow getenv c screen =
         Z.min (width_in_pixels screen) (height_in_pixels screen) / 48 /\
       get_default_size overflow getenv c screen =
         (if height_in_pixels screen <? width_in_pixels screen
          then height_in_pixels screen
          else width_in_pixels screen) / 48)) /\
  (forall overflow,
      get_default_size overflow no_env
        (rm_set zeroed_context RM_XFT_DPI (Some (lit "96"))) full_hd = 21 /\
      get_default_size overflow no_env
        (rm_set zeroed_context RM_XFT_DPI (Some (lit "0"))) full_hd = 22 /\
      get_default_size overflow no_env zeroed_context full_hd = 22) /\
  atoi (lit "200000000") = 200000000 /\
  200000000 * 16 / 72 = 44444444 /\
  get_default_size wraps no_env
    (rm_set zeroed_context RM_XFT_DPI (Some (lit "200000000"))) full_hd =
    4279759417 /\
  get_default_size widens no_env
    (rm_set zeroed_context RM_XFT_DPI (Some (lit "200000000"))) full_hd =
    44444444.
Proof.
  split; [|split; [intros overflow; repeat split|repeat split]].
  intros overflow getenv c screen He Hs. split; [|split].
  - intros v Hv Hdpi. unfold get_default_size. rewrite He, Hs, Hv.
    destruct (Z.gtb_spec (atoi v) 0) as [_|Hle]; [|lia].
    apply dpi_guess. exact Hdpi.
  - intros v Hv Hdpi. split; [unfold INT_MAX; lia|].
    unfold get_default_size. rewrite He, Hs, Hv.
    destruct (Z.gtb_spec (atoi v) 0) as [_|Hle]; [|lia].
    unfold dpi_to_size, INT_MIN, INT_MAX.
    destruct (Z.leb_spec (atoi v * 16) 2147483647) as [Hle|_]; [lia|].
    rewrite andb_false_r. reflexivity.
  - intros Hd.
    assert (E : get_default_size overflow getenv c screen =
                Z.min (width_in_pixels screen) (height_in_pixels screen) / 48).
    { unfold get_default_size. rewrite He, Hs.
      destruct Hd as [Hd|(v & Hv & Hle)].
      - rewrite Hd. apply screen_guess.
      - rewrite Hv. destruct (Z.gtb_spec (atoi v) 0) as [Hgt|_]; [lia|].
        apply screen_guess. }
    split; [exact E|]. rewrite E. f_equal.
    destruct (Z.ltb_spec (height_in_pixels screen) (width_in_pixels screen)); lia.
Qed.

Lemma dpi_then_screen_witness :
  get_default_size wraps no_env
    (rm_set zeroed_context RM_XFT_DPI (Some (lit "96"))) full_hd =
    atoi (lit "96") * 16 / 72 /\
  (INT_MAX < atoi (lit "200000000") * 16 /\
   get_default_size wraps no_env
     (rm_set zeroed_context RM_XFT_DPI (Some (lit "200000000"))) full_hd =
     to_uint32 (wraps (atoi (lit "200000000")))) /\
  get_default_size wraps no_env zeroed_context full_hd =
    Z.min (width_in_pixels full_hd) (height_in_pixels full_hd) / 48.
Proof.
  split; [|split].
  - apply (proj1 (proj1 dpi_then_screen wraps no_env
                    (rm_set zeroed_context RM_XFT_DPI (Some (lit "96"))) full_hd
                    eq_refl eq_refl) (lit "96")).
    + reflexivity.
    + vm_compute. split; [reflexivity|discriminate].
  - apply (proj1 (proj2 (proj1 dpi_then_screen wraps no_env
                    (rm_set zeroed_context RM_XFT_DPI (Some (lit "200000000")))
                    full_hd eq_refl eq_refl)) (lit "200000000")).
    + reflexivity.
    + reflexivity.
  - apply (proj2 (proj2 (proj1 dpi_then_screen wraps no_env zeroed_context full_hd
                    eq_refl eq_refl))).
    left. reflexivity.
Defined.

(** C5, as the code has it.  A line with a colon that the scan gets to: the
    key is what stands before the first colon, taken as it is and compared
    with the three names character by character; the value is what stands
    after the colon without its leading white space, and otherwise as it
    is, be it empty.  The value is stored under the key that matches, and a
    line with another key changes nothing.  The scan gets to the non-empty
    lines of the text before its first NUL, as far as no line without colon
    stands before them: the parse of a blob is the parse of the lines
    before such a line, this step on the line, and the parse of the lines
    after it.  For the lines [Xcursor.theme: Foo] and [Xcursor.size:  32]
    the theme is [Foo] and the size is [32].  A key in other case, or with
    a space before or after it, is another key; white space at the end of
    the value stays. *)
Theorem line_key_and_value :
  (forall (c : xcb_cursor_context_t) (key rest : cstring),
      ~ In COLON key -> ~ In NUL key ->
      let line := key ++ COLON :: rest in
      let v := skip_spaces rest in
      (key = lit "Xcursor.theme" ->
       parse_line c line = Some (rm_set c RM_XCURSOR_THEME (Some v))) /\
      (key = lit "Xcursor.size" ->
       parse_line c line = Some (rm_set c RM_XCURSOR_SIZE (Some v))) /\
      (key = lit "Xft.dpi" ->
       parse_line c line = Some (rm_set c RM_XFT_DPI (Some v))) /\
      (key <> lit "Xcursor.theme" -> key <> lit "Xcursor.size" ->
       key <> lit "Xft.dpi" -> parse_line c line = Some c) /\
      (exists ws, rest = ws ++ v /\ forallb isspace ws = true) /\
      match v with [] => True | ch :: _ => isspace ch = false end) /\
  (forall (c : xcb_cursor_context_t) (b : list ascii)
          (before after : list cstring) (line : cstring),
      nonempty_lines (until_nul b) = before ++ line :: after ->
      Forall (fun l => In COLON l) before -> In COLON line ->
      exists c1,
        parse_line (parse_resource_manager c (Some (mk_reply (unlines before))))
                   line = Some c1 /\
        parse_resource_manager c (Some (mk_reply b)) =
        parse_resource_manager c1 (Some (mk_reply (unlines after)))) /\
  (let t := parse (Some (lit "Xcursor.theme: Foo" ++ [LF] ++
                         lit "Xcursor.size:  32" ++ [LF])) in
   rm_get t RM_XCURSOR_THEME = Some (lit "Foo") /\
   rm_get t RM_XCURSOR_SIZE = Some (lit "32") /\
   rm_get t RM_XFT_DPI = None) /\
  rm_get (parse (Some (lit "xcursor.theme: Foo"))) RM_XCURSOR_THEME = None /\
  rm_get (parse (Some (lit " Xcursor.theme: Foo"))) RM_XCURSOR_THEME = None /\
  rm_get (parse (Some (lit "Xcursor.theme : Foo"))) RM_XCURSOR_THEME = None /\
  rm_get (parse (Some (lit "Xcursor.theme: Foo  "))) RM_XCURSOR_THEME =
    Some (lit "Foo  ") /\
  rm_get (parse (Some (lit "Xcursor.theme:  "))) RM_XCURSOR_THEME = Some [].
Proof.
  split; [|split; [exact parse_around_line|vm_compute; repeat split]].
  intros c key rest Hcol Hnul line v. subst line v.
  rewrite (parse_line_colon c key rest Hcol). unfold assign, strdup.
  repeat split.
  - intros ->. reflexivity.
  - intros ->. reflexivity.
  - intros ->. reflexivity.
  - intros H1 H2 H3.
    rewrite (strcmp_neq _ _ Hnul lit_no_nul_theme H1).
    rewrite (strcmp_neq _ _ Hnul lit_no_nul_size H2).
    rewrite (strcmp_neq _ _ Hnul lit_no_nul_dpi H3). reflexivity.
  - apply skip_spaces_split.
  - apply skip_spaces_head.
Qed.

Lemma line_key_and_value_witness :
  parse_line zeroed_context (lit "Xcursor.size" ++ COLON :: lit "  32") =
    Some (rm_set zeroed_context RM_XCURSOR_SIZE (Some (lit "32"))) /\
  exists c1,
    parse_line (parse_resource_manager zeroed_context
                  (Some (mk_reply (unlines [lit "Xft.dpi: 96"]))))
               (lit "Xcursor.size:  32") = Some c1 /\
    parse_resource_manager zeroed_context
      (Some (mk_reply (lit "Xft.dpi: 96" ++ [LF] ++ lit "Xcursor.size:  32" ++
                       [LF] ++ lit "Xcursor.theme: Foo" ++ [LF]))) =
    parse_resource_manager c1
      (Some (mk_reply (unlines [lit "Xcursor.theme: Foo"]))).
Proof.
  assert (H1 : ~ In COLON (lit "Xcursor.size")).
  { not_in_literal. }
  split.
  - exact (proj1 (proj2 (proj1 line_key_and_value zeroed_context
                           (lit "Xcursor.size") (lit "  32") H1 lit_no_nul_size))
                 eq_refl).
  - apply (proj1 (proj2 line_key_and_value) zeroed_context _
                 [lit "Xft.dpi: 96"] [lit "Xcursor.theme: Foo"]
                 (lit "Xcursor.size:  32")).
    + reflexivity.
    + constructor; [simpl; tauto|constructor].
    + simpl. tauto.
Defined.

(** C5 as it is written fails for a line with a colon that the scan does
    not get to.  After a line without colon, and after a NUL, a line with
    the key [Xcursor.theme] stores nothing. *)
Lemma line_not_reached_not_stored :
  (let b := lit "badline" ++ [LF] ++ lit "Xcursor.theme: Foo" ++ [LF] in
   nonempty_lines b = [lit "badline"; lit "Xcursor.theme: Foo"] /\
   parse_line zeroed_context (lit "Xcursor.theme: Foo") =
     Some (rm_set zeroed_context RM_XCURSOR_THEME (Some (lit "Foo"))) /\
   rm_get (parse (Some b)) RM_XCURSOR_THEME = None /\
   rm_get (parse (Some b)) RM_XCURSOR_THEME <> Some (lit "Foo")) /\
  (let b := lit "Xcursor.size: 24" ++ [NUL; LF] ++
            lit "Xcursor.theme: Foo" ++ [LF] in
   nonempty_lines b =
     [lit "Xcursor.size: 24" ++ [NUL]; lit "Xcursor.theme: Foo"] /\
   rm_get (parse (Some b)) RM_XCURSOR_SIZE = Some (lit "24") /\
   rm_get (parse (Some b)) RM_XCURSOR_THEME = None /\
   rm_get (parse (Some b)) RM_XCURSOR_THEME <> Some (lit "Foo")).
Proof.
  split; (split; [reflexivity|split; [reflexivity|split;
    [reflexivity|discriminate]]]).
Qed.

(** C6, as the code has it.  A key has one value at most: in the table that
    a blob parses to, the entry of a key is the value of the last line that
    names the key among the lines the scan gets to, and it is unset when
    none of them names the key.  The scan gets to the non-empty lines of the
    text before its first NUL, up to the first one without a colon.  So of
    the lines of the text before the first NUL that name a recognized key,
    the last one gives the value that is stored, provided every line before
    it has a colon.  (A line without colon ends the scan, and lines after it
    are not read.)  For the lines [Xft.dpi: 96] and [Xft.dpi: 192] the value
    stored is [192]. *)
Theorem last_scanned_line_wins :
  (forall (c : xcb_cursor_context_t) (b : list ascii) (i : rm_index)
          (before after : list cstring) (rest : cstring),
      nonempty_lines (until_nul b) =
        before ++ (key_name i ++ COLON :: rest) :: after ->
      Forall (fun l => In COLON l) before ->
      Forall (fun l => forall r, l <> key_name i ++ COLON :: r) after ->
      rm_get (parse_resource_manager c (Some (mk_reply b))) i =
      Some (skip_spaces rest)) /\
  (forall (b : list ascii) (i : rm_index),
      rm_get (parse (Some b)) i =
      last_value i (scanned (nonempty_lines (until_nul b)))) /\
  rm_get (parse (Some blob_dpi_twice)) RM_XFT_DPI = Some (lit "192").
Proof.
  split; [|split; [|reflexivity]].
  - intros c b i before after rest Hb Hbefore Hafter.
    rewrite parse_resource_manager_lines, Hb.
    rewrite (run_lines_app c before _ Hbefore).
    simpl run_lines at 1.
    rewrite (parse_line_colon _ (key_name i) rest (key_name_no_colon i)).
    rewrite run_lines_keeps; [apply assign_own|].
    apply Forall_forall. intros l Hl. split.
    + intros Hin.
      assert (Hm : In l (nonempty_lines (until_nul b))).
      { rewrite Hb. apply in_or_app. right. right. exact Hl. }
      destruct (nonempty_lines_chars _ l NUL Hm Hin) as [Hn _].
      exact (until_nul_no_nul b Hn).
    + exact (proj1 (Forall_forall _ _) Hafter l Hl).
  - intros b i. unfold parse. rewrite parse_get.
    destruct (last_value i (scanned (nonempty_lines (until_nul b))));
      [reflexivity|]. destruct i; reflexivity.
Qed.

Lemma last_scanned_line_wins_witness :
  rm_get (parse_resource_manager zeroed_context (Some (mk_reply blob_dpi_twice)))
         RM_XFT_DPI = Some (skip_spaces (lit " 192")).
Proof.
  apply (proj1 last_scanned_line_wins zeroed_context blob_dpi_twice RM_XFT_DPI
               [lit "Xft.dpi: 96"] [] (lit " 192")).
  - reflexivity.
  - constructor; [|constructor]. simpl. tauto.
  - constructor.
Defined.

(** C6 as it is written fails where the scan does not get to the last line
    of a key: after a line without colon, and after a NUL, that line is
    never read, and the earlier value stays. *)
Lemma last_line_after_malformed_line_lost :
  (nonempty_lines blob_dpi_bad_dpi =
     [lit "Xft.dpi: 96"; lit "bad"; lit "Xft.dpi: 192"] /\
   rm_get (parse (Some blob_dpi_bad_dpi)) RM_XFT_DPI = Some (lit "96") /\
   rm_get (parse (Some blob_dpi_bad_dpi)) RM_XFT_DPI <> Some (lit "192")) /\
  (let b := lit "Xft.dpi: 96" ++ [LF] ++ lit "foo: bar" ++ [NUL; LF] ++
            lit "Xft.dpi: 192" ++ [LF] in
   nonempty_lines b =
     [lit "Xft.dpi: 96"; lit "foo: bar" ++ [NUL]; lit "Xft.dpi: 192"] /\
   Forall (fun l => In COLON l)
     [lit "Xft.dpi: 96"; lit "foo: bar" ++ [NUL]; lit "Xft.dpi: 192"] /\
   rm_get (parse (Some b)) RM_XFT_DPI = Some (lit "96") /\
   rm_get (parse (Some b)) RM_XFT_DPI <> Some (lit "192")).
Proof.
  split.
  - split; [reflexivity|split; [reflexivity|discriminate]].
  - split; [reflexivity|]. split; [|split; [reflexivity|discriminate]].
    constructor; [simpl; tauto|].
    constructor; [simpl; tauto|]. constructor; [simpl; tauto|constructor].
Qed.

(** C7.  An absent reply and a reply of length zero both leave the context
    as it is, so that on a fresh context the three keys are unset; and unset
    is not the same as set to the empty string, which is what a line with
    nothing after the colon gives. *)
Theorem absent_or_empty_blob :
  (forall c, parse_resource_manager c None = c) /\
  (forall c, parse_resource_manager c (Some (mk_reply [])) = c) /\
  (forall i, rm_get (parse None) i = None) /\
  (forall i, rm_get (parse (Some [])) i = None) /\
  (forall i, rm_get (parse None) i <> Some [] /\
             rm_get (parse (Some [])) i <> Some []) /\
  rm_get (parse (Some (lit "Xcursor.theme:"))) RM_XCURSOR_THEME = Some [].
Proof.
  repeat split; try reflexivity; try (intros []; reflexivity);
    destruct i; discriminate.
Qed.

(** C8, as the code has it.  Without XCURSOR_SIZE in the environment and
    with a value for [Xcursor.size] in the table, the size is [atoi] of that
    value converted to [uint32_t]: the value of [atoi] itself when that is
    not negative.  Neither [Xft.dpi] nor the screen is looked at.  The value
    [24] gives 24. *)
Theorem resource_size_second :
  (forall overflow getenv c screen v,
      getenv (lit "XCURSOR_SIZE") = None ->
      rm_get c RM_XCURSOR_SIZE = Some v ->
      get_default_size overflow getenv c screen = to_uint32 (atoi v) /\
      (0 <= atoi v -> get_default_size overflow getenv c screen = atoi v) /\
      (atoi v < 0 -> get_default_size overflow getenv c screen = atoi v + 4294967296) /\
      (forall dpi screen',
          get_default_size overflow getenv (rm_set c RM_XFT_DPI dpi) screen' =
          get_default_size overflow getenv c screen)) /\
  (forall overflow dpi screen,
      get_default_size overflow no_env
        (rm_set (rm_set zeroed_context RM_XCURSOR_SIZE (Some (lit "24")))
                RM_XFT_DPI dpi) screen = 24).
Proof.
  split.
  - intros overflow getenv c screen v He Hv.
    rewrite (get_default_size_rm overflow getenv c screen v He Hv).
    destruct (atoi_as_uint32 v) as [Hpos Hneg].
    repeat split; try assumption.
    intros dpi screen'. apply get_default_size_rm; [exact He|exact Hv].
  - intros overflow dpi screen. reflexivity.
Qed.

Lemma resource_size_second_witness :
  get_default_size wraps no_env
    (rm_set zeroed_context RM_XCURSOR_SIZE (Some (lit "24"))) full_hd =
  to_uint32 (atoi (lit "24")).
Proof.
  apply (proj1 resource_size_second wraps no_env
               (rm_set zeroed_context RM_XCURSOR_SIZE (Some (lit "24")))
               full_hd (lit "24")).
  - reflexivity.
  - reflexivity.
Defined.

(** C8 as it is written fails for a value of [Xcursor.size] that [atoi]
    reads as a negative number. *)
Lemma resource_size_minus_five :
  atoi (lit "-5") = -5 /\
  get_default_size wraps no_env
    (rm_set zeroed_context RM_XCURSOR_SIZE (Some (lit "-5"))) full_hd = 4294967291 /\
  get_default_size wraps no_env
    (rm_set zeroed_context RM_XCURSOR_SIZE (Some (lit "-5"))) full_hd <>
  atoi (lit "-5").
Proof. repeat split; try reflexivity. discriminate. Qed.

(** C9, as the code has it.  The destructor reads the members of the
    context before anything else, so that on a null pointer its behaviour is
    undefined, whatever the heap.  On a context that is allocated, whose
    members are null or allocated blocks that differ from one another and
    from the context, it returns; it leaves allocated what was allocated
    apart from these blocks and the context. *)
Theorem context_free_reads_context :
  (forall h, xcb_cursor_context_free h NULL = Undefined) /\
  (forall h c b,
      c <> NULL -> In c (live h) -> lookup_block c (contexts h) = Some b ->
      NoDup (owned b ++ [c]) -> incl (owned b) (live h) ->
      exists h',
        xcb_cursor_context_free h c = Returns h' /\
        forall q, In q (live h') <->
                  In q (live h) /\ ~ In q (owned b ++ [c])) /\
  xcb_cursor_context_free heap_one 10 =
    Returns (mk_heap [50] [(10, mk_block 20 NULL 30 40)]).
Proof.
  split; [reflexivity|split; [|reflexivity]].
  intros h c b Hc Hl Hb Hnd Hin.
  assert (Hnc : ~ In c (owned b)).
  { pose proof (NoDup_remove_2 _ _ _ Hnd) as H. rewrite app_nil_r in H. exact H. }
  assert (Hnd1 : NoDup (owned b)).
  { pose proof (NoDup_remove_1 _ _ _ Hnd) as H. rewrite app_nil_r in H. exact H. }
  assert (Hnc' : ~ In c [b_rm_theme b; b_rm_size b; b_rm_dpi b; b_pf_reply b]).
  { intros H. apply Hnc. unfold owned. apply filter_In. split; [exact H|].
    unfold nonnull. destruct (Z.eqb_spec c NULL); [contradiction|reflexivity]. }
  destruct (free_members_ok c b [b_rm_theme; b_rm_size; b_rm_dpi; b_pf_reply]
              Hc h Hl Hb Hnd1 Hin Hnc') as (h1 & Hf & Hctx & Hlive).
  rewrite xcb_cursor_context_free_members, Hf. simpl bind.
  assert (Hc1 : In c (live h1)).
  { apply Hlive. split; [exact Hl|exact Hnc]. }
  rewrite (free_ok h1 c (or_intror Hc1)).
  exists (released h1 c). split; [reflexivity|].
  intros q. rewrite released_live, Hlive. fold (owned b).
  rewrite in_app_iff. simpl. split.
  - intros [[H1 H2] [H3|H3]]; [contradiction|].
    split; [exact H1|]. intros [H4|[H4|[]]]; [contradiction|congruence].
  - intros [H1 H2]. split; [split; [exact H1|]|right].
    + intros H3. apply H2. left. exact H3.
    + intros E. apply H2. right. left. symmetry. exact E.
Qed.

Lemma context_free_reads_context_witness :
  exists h',
    xcb_cursor_context_free heap_one 10 = Returns h' /\
    forall q, In q (live h') <->
              In q (live heap_one) /\ ~ In q (owned (mk_block 20 NULL 30 40) ++ [10]).
Proof.
  apply (proj1 (proj2 context_free_reads_context) heap_one 10
               (mk_block 20 NULL 30 40)).
  - discriminate.
  - simpl. tauto.
  - reflexivity.
  - simpl. repeat constructor; simpl; intuition discriminate.
  - intros q. simpl. tauto.
Defined.

(** C9 as it is written fails: on a null pointer the destructor does not
    return, with the heap as it was or with any other. *)
Lemma context_free_null_undefined :
  xcb_cursor_context_free heap_one NULL = Undefined /\
  xcb_cursor_context_free heap_one NULL <> Returns heap_one /\
  ~ (exists h', xcb_cursor_context_free heap_one NULL = Returns h').
Proof.
  split; [reflexivity|split; [discriminate|]].
  intros [h' H]. discriminate H.
Qed.

(** C10.  Empty lines are passed over: they do not stop the parse and they
    put nothing into the table.  A blob parses like the blob made of its
    non-empty lines alone; blobs that differ in empty lines only parse
    alike; and an LF more at the start, after another LF, or at the end
    changes nothing. *)
Theorem empty_lines_skipped :
  (forall c b,
      parse_resource_manager c (Some (mk_reply b)) =
      parse_resource_manager c (Some (mk_reply (unlines (nonempty_lines b))))) /\
  (forall c b1 b2,
      nonempty_lines b1 = nonempty_lines b2 ->
      parse_resource_manager c (Some (mk_reply b1)) =
      parse_resource_manager c (Some (mk_reply b2))) /\
  (forall c b,
      parse_resource_manager c (Some (mk_reply (LF :: b))) =
      parse_resource_manager c (Some (mk_reply b))) /\
  (forall c a b,
      parse_resource_manager c (Some (mk_reply (a ++ LF :: LF :: b))) =
      parse_resource_manager c (Some (mk_reply (a ++ LF :: b)))) /\
  (forall c b,
      parse_resource_manager c (Some (mk_reply (b ++ [LF]))) =
      parse_resource_manager c (Some (mk_reply b))) /\
  (forall c, parse_resource_manager c (Some (mk_reply [LF; LF; LF])) = c).
Proof.
  split; [|split; [|split; [|split; [|split]]]].
  - intros c b. apply parse_same_lines. symmetry. apply nonempty_lines_idem.
  - intros c b1 b2. apply parse_same_lines.
  - intros c b. apply parse_same_lines.
    apply (nonempty_lines_app_LF [] b).
  - intros c a b. apply parse_same_lines.
    rewrite (nonempty_lines_app_LF a (LF :: b)), (nonempty_lines_app_LF a b).
    f_equal; apply (nonempty_lines_app_LF [] b).
  - intros c b. apply parse_same_lines.
    rewrite nonempty_lines_app_LF. apply app_nil_r.
  - reflexivity.
Qed.

Lemma empty_lines_skipped_witness :
  parse_resource_manager zeroed_context
    (Some (mk_reply (LF :: lit "Xft.dpi: 96" ++ [LF; LF] ++ lit "Xcursor.size: 24"))) =
  parse_resource_manager zeroed_context
    (Some (mk_reply (lit "Xft.dpi: 96" ++ [LF] ++ lit "Xcursor.size: 24" ++ [LF]))).
Proof.
  apply (proj1 (proj2 empty_lines_skipped)). reflexivity.
Defined.

(** * Further properties of the code *)

(** X1.  The parser writes to the array [rm] and to nothing else in the
    context: the root window, the font, the reply and the format of the
    render query and the size are after the call what they were before.
    What it leaves in [rm] depends on the reply and on [rm] alone. *)
Theorem parse_writes_rm_only :
  forall (c : xcb_cursor_context_t) (r : option xcb_get_property_reply_t),
    root (parse_resource_manager c r) = root c /\
    cursor_font (parse_resource_manager c r) = cursor_font c /\
    pf_reply (parse_resource_manager c r) = pf_reply c /\
    pict_format (parse_resource_manager c r) = pict_format c /\
    size (parse_resource_manager c r) = size c /\
    forall c0, rm c0 = rm c ->
               rm (parse_resource_manager c0 r) = rm (parse_resource_manager c r).
Proof.
  intros c r. destruct (parse_frame c r) as (H1 & H2 & H3 & H4 & H5).
  repeat (split; [assumption|]).
  intros c0 H0. destruct r as [[b]|]; [|exact H0].
  apply rm_eq. intros i. rewrite !parse_resource_manager_lines.
  rewrite !(run_lines_get i _ (text_lines_no_nul b)).
  destruct (last_value i (scanned (nonempty_lines (until_nul b)))); [reflexivity|].
  unfold rm_get. rewrite H0. reflexivity.
Qed.

(** X2.  Every entry of the table after the parse is given by the lines the
    loop gets to, the non-empty lines of the text before the first one
    without a colon: an entry has the value of the last of these lines that
    names its key, and when no such line names its key it has the value it
    had before the call. *)
Theorem parse_entry_by_lines :
  forall (c : xcb_cursor_context_t) (b : list ascii) (i : rm_index),
    rm_get (parse_resource_manager c (Some (mk_reply b))) i =
    match last_value i (scanned (nonempty_lines (until_nul b))) with
    | Some v => Some v
    | None => rm_get c i
    end.
Proof. exact parse_get. Qed.

Lemma until_nul_idem (b : list ascii) : until_nul (until_nul b) = until_nul b.
Proof. apply until_nul_id. apply until_nul_no_nul. Qed.

(** X3.  The parser reads the reply as a C string: of a value with a NUL in
    it, it sees what stands before the first NUL and nothing of what
    follows, lines with recognized keys included. *)
Theorem parse_stops_at_nul :
  (forall c b,
      parse_resource_manager c (Some (mk_reply b)) =
      parse_resource_manager c (Some (mk_reply (until_nul b)))) /\
  (forall c b rest,
      ~ In NUL b ->
      parse_resource_manager c (Some (mk_reply (b ++ NUL :: rest))) =
      parse_resource_manager c (Some (mk_reply b))).
Proof.
  split.
  - intros c b. rewrite !parse_resource_manager_lines, until_nul_idem. reflexivity.
  - intros c b rest H. rewrite !parse_resource_manager_lines.
    rewrite until_nul_app_r by exact H. simpl until_nul.
    rewrite app_nil_r, (until_nul_id b H). reflexivity.
Qed.

Lemma parse_stops_at_nul_witness :
  parse_resource_manager zeroed_context
    (Some (mk_reply (lit "Xft.dpi: 96" ++ NUL :: LF :: lit "Xcursor.size: 24"))) =
  parse_resource_manager zeroed_context (Some (mk_reply (lit "Xft.dpi: 96"))).
Proof.
  apply (proj2 parse_stops_at_nul). not_in_literal.
Defined.



(** X5.  Two replies parsed one after the other into the same context give
    what the two texts give as one, the second after the first on a line of
    its own, as long as the first has no NUL and no line without a colon. *)
Theorem parse_twice_is_concatenation :
  forall (c : xcb_cursor_context_t) (b1 b2 : list ascii),
    ~ In NUL b1 ->
    Forall (fun l => In COLON l) (nonempty_lines b1) ->
    parse_resource_manager (parse_resource_manager c (Some (mk_reply b1)))
                           (Some (mk_reply b2)) =
    parse_resource_manager c (Some (mk_reply (b1 ++ LF :: b2))).
Proof.
  intros c b1 b2 Hnul Hcol. rewrite !parse_resource_manager_lines.
  rewrite until_nul_app_r by exact Hnul.
  change (until_nul (LF :: b2)) with (LF :: until_nul b2).
  rewrite nonempty_lines_app_LF, (until_nul_id b1 Hnul).
  symmetry. apply run_lines_app. exact Hcol.
Qed.

Lemma parse_twice_is_concatenation_witness :
  parse_resource_manager
    (parse_resource_manager zeroed_context (Some (mk_reply (lit "Xft.dpi: 96"))))
    (Some (mk_reply (lit "Xcursor.size: 24"))) =
  parse_resource_manager zeroed_context
    (Some (mk_reply (lit "Xft.dpi: 96" ++ LF :: lit "Xcursor.size: 24"))).
Proof.
  apply parse_twice_is_concatenation.
  - not_in_literal.
  - simpl. constructor; [simpl; tauto|constructor].
Defined.

(** X6.  To parse the same reply once more into the context changes
    nothing. *)
Theorem parse_again_no_change :
  forall (c : xcb_cursor_context_t) (r : option xcb_get_property_reply_t),
    parse_resource_manager (parse_resource_manager c r) r =
    parse_resource_manager c r.
Proof.
  intros c r. destruct r as [[b]|]; [|reflexivity].
  destruct (parse_frame (parse_resource_manager c (Some (mk_reply b)))
                        (Some (mk_reply b))) as (H1 & H2 & H3 & H4 & H5).
  apply context_eq; try assumption.
  intros i. rewrite (parse_get (parse_resource_manager c _) b i).
  rewrite (parse_get c b i).
  destruct (last_value i (scanned (nonempty_lines (until_nul b)))); reflexivity.
Qed.

(** ** What values the parser stores, and when it stores none *)

Lemma scanned_incl (ls : list cstring) (l : cstring) :
  In l (scanned ls) -> In l ls.
Proof.
  induction ls as [|x ls IH]; simpl; [tauto|].
  destruct (strchr x COLON); [|intros []].
  intros [H|H]; [left; exact H|right; apply IH; exact H].
Qed.

Lemma last_value_from (i : rm_index) (ls : list cstring) (v : cstring) :
  last_value i ls = Some v -> exists l, In l ls /\ line_value i l = Some v.
Proof.
  induction ls as [|x ls IH]; simpl; [discriminate|].
  destruct (last_value i ls) as [w|].
  - intros H. destruct (IH H) as (l & Hl & E). exists l. tauto.
  - intros H. exists x. tauto.
Qed.

Lemma skipn_incl (k : nat) (l : list ascii) (ch : ascii) :
  In ch (skipn k l) -> In ch l.
Proof.
  revert l. induction k as [|k IH]; intros [|x l]; simpl; try tauto.
  intros H. right. apply IH. exact H.
Qed.

Lemma line_value_shape (i : rm_index) (l v : cstring) :
  ~ In NUL l -> line_value i l = Some v ->
  exists rest, l = key_name i ++ COLON :: rest /\ v = skip_spaces rest.
Proof.
  intros Hnul. unfold line_value.
  destruct (strchr l COLON) as [k|] eqn:Ek; [|discriminate].
  destruct (strchr_some l COLON k Ek) as [Hl Hcol].
  destruct (Z.eqb_spec (strcmp (firstn k l) (key_name i)) 0) as [E|_]; [|discriminate].
  intros H. injection H as <-.
  apply strcmp_eq in E; [|intros G; apply Hnul; apply (firstn_incl k); exact G
                         |apply key_name_no_nul].
  exists (skipn (S k) l). split; [|reflexivity]. rewrite <- E. exact Hl.
Qed.

Lemma line_value_name (i : rm_index) (rest : cstring) :
  line_value i (key_name i ++ COLON :: rest) = Some (skip_spaces rest).
Proof.
  unfold line_value. rewrite (strchr_first _ rest COLON (key_name_no_colon i)).
  rewrite firstn_app, Nat.sub_diag, firstn_all, firstn_O, app_nil_r, strcmp_refl.
  simpl Z.eqb. cbv iota. f_equal. f_equal.
  generalize (key_name i). intros k. induction k as [|x k IH]; [reflexivity|exact IH].
Qed.

(** X7.  A value that the parser has stored is one line of text without
    white space at its head: it has no LF and no NUL in it and does not
    begin with a character of the class [isspace].  An entry that has
    another value after the call had that value before. *)
Theorem stored_values_trimmed :
  forall (c : xcb_cursor_context_t) (r : option xcb_get_property_reply_t)
         (i : rm_index) (v : cstring),
    rm_get (parse_resource_manager c r) i = Some v ->
    rm_get c i = Some v \/ trimmed_line v.
Proof.
  intros c r i v. destruct r as [[b]|]; [|left; assumption].
  rewrite parse_get.
  destruct (last_value i (scanned (nonempty_lines (until_nul b)))) as [w|] eqn:E;
    [|left; assumption].
  intros H. injection H as ->. right.
  destruct (last_value_from i _ v E) as (l & Hl & Hv).
  apply scanned_incl in Hl.
  assert (Hnul : ~ In NUL l).
  { exact (proj1 (Forall_forall _ _) (text_lines_no_nul b) l Hl). }
  destruct (line_value_shape i l v Hnul Hv) as (rest & -> & ->).
  assert (Hsub : forall ch, In ch (skip_spaces rest) ->
                            In ch (key_name i ++ COLON :: rest)).
  { intros ch H. apply in_or_app. right. right. apply skip_spaces_incl. exact H. }
  repeat split.
  - intros H. destruct (nonempty_lines_chars _ _ LF Hl (Hsub _ H)) as [_ Hne].
    apply Hne. reflexivity.
  - intros H. apply Hnul. apply Hsub. exact H.
  - apply skip_spaces_head.
Qed.

Lemma stored_values_trimmed_witness :
  rm_get zeroed_context RM_XCURSOR_THEME = Some (lit "Foo") \/
  trimmed_line (lit "Foo").
Proof.
  apply (stored_values_trimmed zeroed_context
           (Some (mk_reply (lit "Xcursor.theme:   Foo"))) RM_XCURSOR_THEME).
  reflexivity.
Defined.

(** X8.  A reply none of whose lines is one of the three names followed by
    a colon leaves the context as it is, whatever else its lines hold, be it
    other keys, lines without colon or the names in other spelling. *)
Theorem other_lines_change_nothing :
  forall (c : xcb_cursor_context_t) (b : list ascii),
    (forall l i rest, In l (nonempty_lines (until_nul b)) ->
                      l <> key_name i ++ COLON :: rest) ->
    parse_resource_manager c (Some (mk_reply b)) = c.
Proof.
  intros c b H.
  destruct (parse_frame c (Some (mk_reply b))) as (H1 & H2 & H3 & H4 & H5).
  apply context_eq; try assumption.
  intros i. rewrite parse_get.
  destruct (last_value i (scanned (nonempty_lines (until_nul b)))) as [w|] eqn:E;
    [|reflexivity].
  exfalso. destruct (last_value_from i _ w E) as (l & Hl & Hv).
  apply scanned_incl in Hl.
  assert (Hnul : ~ In NUL l).
  { exact (proj1 (Forall_forall _ _) (text_lines_no_nul b) l Hl). }
  destruct (line_value_shape i l w Hnul Hv) as (rest & Hrest & _).
  exact (H l i rest Hl Hrest).
Qed.

Lemma other_lines_change_nothing_witness :
  parse_resource_manager zeroed_context
    (Some (mk_reply (lit "*background: black" ++ LF :: lit "xft.dpi: 96"))) =
  zeroed_context.
Proof.
  apply other_lines_change_nothing.
  intros l i rest Hl. simpl in Hl.
  destruct Hl as [<-|[<-|[]]]; destruct i; discriminate.
Defined.

(** X9.  Two lines next to each other that have a colon and different keys
    can change places without any change to what the parse gives. *)
Theorem lines_of_different_keys_commute :
  forall (c : xcb_cursor_context_t) (b b' : list ascii)
         (before after : list cstring) (k1 r1 k2 r2 : cstring),
    ~ In COLON k1 -> ~ In COLON k2 -> k1 <> k2 ->
    nonempty_lines (until_nul b) =
      before ++ (k1 ++ COLON :: r1) :: (k2 ++ COLON :: r2) :: after ->
    nonempty_lines (until_nul b') =
      before ++ (k2 ++ COLON :: r2) :: (k1 ++ COLON :: r1) :: after ->
    parse_resource_manager c (Some (mk_reply b)) =
    parse_resource_manager c (Some (mk_reply b')).
Proof.
  intros c b b' before after k1 r1 k2 r2 Hc1 Hc2 Hk Hb Hb'.
  rewrite !parse_resource_manager_lines, Hb, Hb'.
  pose proof (text_lines_no_nul b) as Hnul. rewrite Hb in Hnul.
  clear Hb Hb'. revert c.
  induction before as [|l before IH]; intros c.
  - simpl app in *. simpl run_lines.
    inversion Hnul as [|? ? Hn1 Hnul']; subst. inversion Hnul' as [|? ? Hn2 _]; subst.
    destruct (parse_line c (k1 ++ COLON :: r1)) as [c1|] eqn:E1;
      [|rewrite parse_line_colon in E1 by exact Hc1; discriminate].
    destruct (parse_line c (k2 ++ COLON :: r2)) as [c2|] eqn:E2;
      [|rewrite parse_line_colon in E2 by exact Hc2; discriminate].
    destruct (parse_line c1 (k2 ++ COLON :: r2)) as [c12|] eqn:E12;
      [|rewrite parse_line_colon in E12 by exact Hc2; discriminate].
    destruct (parse_line c2 (k1 ++ COLON :: r1)) as [c21|] eqn:E21;
      [|rewrite parse_line_colon in E21 by exact Hc1; discriminate].
    f_equal.
    destruct (parse_line_frame _ _ _ E1) as (A1 & A2 & A3 & A4 & A5).
    destruct (parse_line_frame _ _ _ E2) as (B1 & B2 & B3 & B4 & B5).
    destruct (parse_line_frame _ _ _ E12) as (C1 & C2 & C3 & C4 & C5).
    destruct (parse_line_frame _ _ _ E21) as (D1 & D2 & D3 & D4 & D5).
    apply context_eq; try congruence.
    intros i.
    rewrite (parse_line_get c1 c12 _ i Hn2 E12), (parse_line_get c c1 _ i Hn1 E1).
    rewrite (parse_line_get c2 c21 _ i Hn1 E21), (parse_line_get c c2 _ i Hn2 E2).
    destruct (line_value i (k1 ++ COLON :: r1)) as [v1|] eqn:V1;
      destruct (line_value i (k2 ++ COLON :: r2)) as [v2|] eqn:V2;
      try reflexivity.
    exfalso. apply Hk.
    destruct (line_value_shape i _ v1 Hn1 V1) as (s1 & S1 & _).
    destruct (line_value_shape i _ v2 Hn2 V2) as (s2 & S2 & _).
    assert (F : forall k r s, ~ In COLON k -> k ++ COLON :: r = key_name i ++ COLON :: s ->
                              k = key_name i).
    { intros k r s Hck E.
      pose proof (strchr_first k r COLON Hck) as P.
      rewrite E, (strchr_first _ s COLON (key_name_no_colon i)) in P.
      injection P as P.
      apply (f_equal (firstn (length k))) in E.
      rewrite firstn_app, Nat.sub_diag, firstn_all, firstn_O, app_nil_r in E.
      rewrite <- P, firstn_app, Nat.sub_diag, firstn_all, firstn_O, app_nil_r in E.
      exact E. }
    rewrite (F k1 r1 s1 Hc1 S1), (F k2 r2 s2 Hc2 S2). reflexivity.
  - simpl app in *. simpl run_lines.
    inversion Hnul as [|? ? _ Hnul']; subst.
    destruct (parse_line c l); [apply IH; exact Hnul'|reflexivity].
Qed.

Lemma lines_of_different_keys_commute_witness :
  parse_resource_manager zeroed_context
    (Some (mk_reply (lit "Xft.dpi: 96" ++ LF :: lit "Xcursor.size: 24"))) =
  parse_resource_manager zeroed_context
    (Some (mk_reply (lit "Xcursor.size: 24" ++ LF :: lit "Xft.dpi: 96"))).
Proof.
  apply (lines_of_different_keys_commute zeroed_context _ _ [] []
           (lit "Xft.dpi") (lit " 96") (lit "Xcursor.size") (lit " 24")).
  - not_in_literal.
  - not_in_literal.
  - discriminate.
  - reflexivity.
  - reflexivity.
Defined.

(** ** The size that the fallback gives *)

Lemma get_default_size_by_rm (overflow : Z -> Z) (getenv : environ)
    (c c' : xcb_cursor_context_t) (screen : xcb_screen_t) :
  rm_get c RM_XCURSOR_SIZE = rm_get c' RM_XCURSOR_SIZE ->
  rm_get c RM_XFT_DPI = rm_get c' RM_XFT_DPI ->
  get_default_size overflow getenv c screen =
  get_default_size overflow getenv c' screen.
Proof. intros H1 H2. unfold get_default_size. rewrite H1, H2. reflexivity. Qed.

(** X10.  When the size comes from the screen, that is without
    XCURSOR_SIZE, without [Xcursor.size], and with [Xft.dpi] absent or not
    above 0, it is 1365 at most, and it is 0 exactly for a screen whose
    smaller dimension is below 48 pixels. *)
Theorem screen_size_bounds :
  forall overflow getenv c screen,
    getenv (lit "XCURSOR_SIZE") = None ->
    rm_get c RM_XCURSOR_SIZE = None ->
    rm_get c RM_XFT_DPI = None \/
    (exists v, rm_get c RM_XFT_DPI = Some v /\ atoi v <= 0) ->
    get_default_size overflow getenv c screen <= 1365 /\
    (get_default_size overflow getenv c screen = 0 <->
     Z.min (width_in_pixels screen) (height_in_pixels screen) < 48).
Proof.
  intros overflow getenv c screen He Hs Hd.
  assert (E : get_default_size overflow getenv c screen =
              Z.min (width_in_pixels screen) (height_in_pixels screen) / 48).
  { unfold get_default_size. rewrite He, Hs.
    destruct Hd as [Hd|(v & Hv & Hle)].
    - rewrite Hd. apply screen_guess.
    - rewrite Hv. destruct (Z.gtb_spec (atoi v) 0) as [Hgt|_]; [lia|].
      apply screen_guess. }
  rewrite E.
  pose proof (width_is_uint16 screen) as Hw.
  pose proof (height_is_uint16 screen) as Hh.
  set (m := Z.min (width_in_pixels screen) (height_in_pixels screen)) in *.
  assert (Hm : 0 <= m < 65536) by (unfold m; lia).
  split.
  - apply Z.lt_succ_r. apply Z.div_lt_upper_bound; lia.
  - rewrite Z.div_small_iff by lia. lia.
Qed.

Lemma screen_size_bounds_witness :
  get_default_size wraps no_env zeroed_context (screen_of 0 40 1080) <= 1365 /\
  (get_default_size wraps no_env zeroed_context (screen_of 0 40 1080) = 0 <->
   Z.min (width_in_pixels (screen_of 0 40 1080))
         (height_in_pixels (screen_of 0 40 1080)) < 48).
Proof.
  apply screen_size_bounds.
  - reflexivity.
  - reflexivity.
  - left. reflexivity.
Defined.

(** X11.  A resolution above 0 always decides the size, the screen is not
    tried after it; so that the resolutions from 1 to 4 give the size 0,
    and they are the only ones to do so while dpi * 16 is an [int]. *)
Theorem small_dpi_gives_zero :
  forall overflow getenv c screen v,
    getenv (lit "XCURSOR_SIZE") = None ->
    rm_get c RM_XCURSOR_SIZE = None ->
    rm_get c RM_XFT_DPI = Some v ->
    0 < atoi v <= 134217727 ->
    (get_default_size overflow getenv c screen = 0 <-> atoi v <= 4) /\
    get_default_size overflow getenv c screen <= 29826161 /\
    forall screen',
      get_default_size overflow getenv c screen' =
      get_default_size overflow getenv c screen.
Proof.
  intros overflow getenv c screen v He Hs Hv Hdpi.
  assert (E : forall s, get_default_size overflow getenv c s = atoi v * 16 / 72).
  { intros s. unfold get_default_size. rewrite He, Hs, Hv.
    destruct (Z.gtb_spec (atoi v) 0) as [_|Hle]; [|lia].
    apply dpi_guess. exact Hdpi. }
  rewrite !E. split; [|split].
  - rewrite Z.div_small_iff by lia. lia.
  - apply Z.lt_succ_r. apply Z.div_lt_upper_bound; lia.
  - intros screen'. rewrite E. reflexivity.
Qed.

Lemma small_dpi_gives_zero_witness :
  get_default_size wraps no_env
    (rm_set zeroed_context RM_XFT_DPI (Some (lit "4"))) full_hd = 0 <->
  atoi (lit "4") <= 4.
Proof.
  apply (small_dpi_gives_zero wraps no_env
           (rm_set zeroed_context RM_XFT_DPI (Some (lit "4"))) full_hd (lit "4")).
  - reflexivity.
  - reflexivity.
  - reflexivity.
  - vm_compute. split; [reflexivity|discriminate].
Defined.

(** X12.  The size depends on four things and on nothing else: the value
    of XCURSOR_SIZE, the entries [Xcursor.size] and [Xft.dpi] of the table,
    and the smaller of the two dimensions of the screen.  The theme, the
    other members of the context, and which of width and height is the
    smaller one, make no difference. *)
Theorem size_depends_on :
  forall (overflow : Z -> Z) (getenv getenv' : environ)
         (c c' : xcb_cursor_context_t) (screen screen' : xcb_screen_t),
    getenv (lit "XCURSOR_SIZE") = getenv' (lit "XCURSOR_SIZE") ->
    rm_get c RM_XCURSOR_SIZE = rm_get c' RM_XCURSOR_SIZE ->
    rm_get c RM_XFT_DPI = rm_get c' RM_XFT_DPI ->
    Z.min (width_in_pixels screen) (height_in_pixels screen) =
    Z.min (width_in_pixels screen') (height_in_pixels screen') ->
    get_default_size overflow getenv c screen =
    get_default_size overflow getenv' c' screen'.
Proof.
  intros overflow getenv getenv' c c' screen screen' He Hs Hd Hm.
  unfold get_default_size. rewrite He, Hs, Hd.
  assert (E : forall s : xcb_screen_t,
             (if height_in_pixels s <? width_in_pixels s
              then height_in_pixels s else width_in_pixels s) =
             Z.min (width_in_pixels s) (height_in_pixels s)).
  { intros s. destruct (Z.ltb_spec (height_in_pixels s) (width_in_pixels s)); lia. }
  rewrite !E, Hm. reflexivity.
Qed.

Lemma size_depends_on_witness :
  get_default_size wraps no_env zeroed_context (screen_of 0 1920 1080) =
  get_default_size wraps no_env
    (rm_set zeroed_context RM_XCURSOR_THEME (Some (lit "Foo")))
    (screen_of 9 1080 2560).
Proof. apply size_depends_on; reflexivity. Defined.

(** ** The constructor *)

(** With a block from [calloc] the constructor fills it in this way. *)
Lemma context_new_block (overflow : Z -> Z) (getenv : environ)
    (conn : xcb_connection_t) :
  let t := parse_resource_manager zeroed_context (resource_manager conn) in
  xcb_cursor_context_new overflow Block getenv conn =
  (0, Some (mk_context (screen_root (first_screen conn)) (generated_id conn)
              (pict_formats conn) (argb32_format conn) (rm t)
              (get_default_size overflow getenv t (first_screen conn)))).
Proof.
  intros t. unfold xcb_cursor_context_new, calloc_context.
  set (c0 := mk_context (screen_root (first_screen conn)) (generated_id conn)
               (pf_reply zeroed_context) (pict_format zeroed_context)
               (rm zeroed_context) (size zeroed_context)).
  destruct (parse_frame c0 (resource_manager conn)) as (H1 & H2 & H3 & H4 & H5).
  assert (Hrm : rm (parse_resource_manager c0 (resource_manager conn)) = rm t).
  { unfold t. destruct (resource_manager conn) as [[b]|]; [|reflexivity].
    apply rm_eq. intros i. rewrite !parse_resource_manager_lines.
    rewrite !(run_lines_get i _ (text_lines_no_nul b)). reflexivity. }
  cbv zeta. unfold set_size. simpl root. simpl cursor_font. simpl pf_reply.
  simpl pict_format. simpl rm. rewrite H1, H2, Hrm. simpl.
  do 3 f_equal;
    try (apply get_default_size_by_rm; unfold rm_get; simpl; rewrite Hrm; reflexivity).
Qed.

(** X13.  What the constructor returns hangs on [calloc] alone.  Without
    memory it returns the negated [errno] and leaves [NULL] in [*ctx],
    whatever the server and the environment hold.  With a block it returns
    0, whatever the server answers, and the context has the root of the
    first screen, the identifier the connection generated, the reply and
    the format of the render query, for every key the value of the last
    line naming it that the scan of the property gets to, and the size that
    this very context resolves to.  So the value 0 comes with a context
    except when [calloc] fails and leaves 0 in [errno]. *)
Theorem context_new_result :
  forall (overflow : Z -> Z) (getenv : environ) (conn : xcb_connection_t),
    (forall e,
        xcb_cursor_context_new overflow (NoMemory e) getenv conn = (- e, None)) /\
    (exists c,
        xcb_cursor_context_new overflow Block getenv conn = (0, Some c) /\
        root c = screen_root (first_screen conn) /\
        cursor_font c = generated_id conn /\
        pf_reply c = pict_formats conn /\
        pict_format c = argb32_format conn /\
        (forall i, rm_get c i = last_value i (reached (resource_manager conn))) /\
        size c = get_default_size overflow getenv c (first_screen conn) /\
        0 <= size c < 4294967296) /\
    (forall calloc,
        fst (xcb_cursor_context_new overflow calloc getenv conn) = 0 <->
        calloc = Block \/ calloc = NoMemory 0) /\
    (forall calloc,
        snd (xcb_cursor_context_new overflow calloc getenv conn) = None <->
        exists e, calloc = NoMemory e).
Proof.
  intros overflow getenv conn.
  pose proof (context_new_block overflow getenv conn) as Hb. cbv zeta in Hb.
  set (t := parse_resource_manager zeroed_context (resource_manager conn)) in *.
  split; [intros e; reflexivity|]. split; [|split].
  - eexists. split; [exact Hb|]. simpl.
    split; [reflexivity|]. split; [reflexivity|]. split; [reflexivity|].
    split; [reflexivity|]. split; [|split].
    + intros i. change (rm_get t i = last_value i (reached (resource_manager conn))).
      unfold t, reached. destruct (resource_manager conn) as [[b]|].
      * rewrite parse_get. simpl value.
        destruct (last_value i (scanned (nonempty_lines (until_nul b))));
          [reflexivity|destruct i; reflexivity].
      * destruct i; reflexivity.
    + apply get_default_size_by_rm; reflexivity.
    + apply get_default_size_range.
  - intros calloc. destruct calloc as [|e].
    + rewrite Hb. simpl. split; [intros _; left; reflexivity|reflexivity].
    + change (- e = 0 <-> NoMemory e = Block \/ NoMemory e = NoMemory 0). split.
      * intros H. right. f_equal. lia.
      * intros [H|H]; [discriminate H|]. injection H as ->. reflexivity.
  - intros calloc. destruct calloc as [|e].
    + rewrite Hb. simpl. split; [discriminate|intros [e H]; discriminate H].
    + split; [intros _; exists e; reflexivity|reflexivity].
Qed.

(** ** When the destructor returns *)

Lemma free_returns (h h' : heap) (p : pointer) :
  free h p = Returns h' ->
  (p = NULL \/ In p (live h)) /\ h' = released h p.
Proof.
  unfold free, released. destruct (Z.eqb_spec p NULL) as [E|Hne].
  - intros H. injection H as <-. split; [left; exact E|reflexivity].
  - destruct (is_live h p) eqn:Hl; [|discriminate].
    intros H. injection H as <-. split; [|reflexivity].
    right. apply is_live_In. exact Hl.
Qed.

Lemma load_returns (h : heap) (c : pointer) (b : context_block) :
  load h c = Returns b ->
  c <> NULL /\ In c (live h) /\ lookup_block c (contexts h) = Some b.
Proof.
  unfold load. destruct (Z.eqb_spec c NULL) as [E|Hne]; [discriminate|].
  destruct (is_live h c) eqn:Hl; [|discriminate].
  destruct (lookup_block c (contexts h)) as [b0|] eqn:Hb; [|discriminate].
  intros H. injection H as <-. repeat split; try assumption.
  apply is_live_In. exact Hl.
Qed.

Lemma free_members_returns (c : pointer) (b : context_block)
    (fs : list (context_block -> pointer)) :
  forall h h',
    lookup_block c (contexts h) = Some b ->
    free_members h c fs = Returns h' ->
    NoDup (filter nonnull (map (fun f => f b) fs)) /\
    incl (filter nonnull (map (fun f => f b) fs)) (live h) /\
    contexts h' = contexts h /\
    (forall q, In q (live h') <->
               In q (live h) /\ ~ In q (filter nonnull (map (fun f => f b) fs))).
Proof.
  induction fs as [|f fs IH]; intros h h' Hb H.
  - simpl in H. injection H as <-. simpl.
    repeat split; try tauto; [constructor|intros q []].
  - simpl free_members in H.
    destruct (load h c) as [b0|] eqn:El; [|discriminate]. simpl bind in H.
    destruct (load_returns h c b0 El) as (_ & _ & Hb0).
    rewrite Hb in Hb0. injection Hb0 as <-.
    destruct (free h (f b)) as [h1|] eqn:Ef; [|discriminate]. simpl bind in H.
    destruct (free_returns h h1 (f b) Ef) as [Hp ->].
    assert (Hb1 : lookup_block c (contexts (released h (f b))) = Some b).
    { rewrite released_contexts. exact Hb. }
    destruct (IH _ _ Hb1 H) as (Hnd & Hin & Hctx & Hlive).
    simpl map. rewrite filter_nonnull_cons.
    destruct (Z.eqb_spec (f b) NULL) as [E|Hne].
    + assert (Eh : released h (f b) = h).
      { unfold released. rewrite E. reflexivity. }
      rewrite Eh in *. split; [|split; [|split]]; assumption.
    + destruct Hp as [Hp|Hp]; [contradiction|]. split; [|split; [|split]].
      * constructor; [|exact Hnd]. intros Hq. apply Hin in Hq.
        apply released_live in Hq. destruct Hq as [_ [Hq|Hq]]; contradiction.
      * intros q [<-|Hq]; [exact Hp|].
        apply Hin in Hq. apply released_live in Hq. tauto.
      * rewrite Hctx. apply released_contexts.
      * intros q. rewrite Hlive, released_live. simpl. split.
        -- intros [[H1 [H2|H2]] H3]; [contradiction|].
           split; [exact H1|]. intros [H4|H4]; [congruence|contradiction].
        -- intros [H1 H2]. split; [split; [exact H1|]|].
           ++ right. intros E. apply H2. left. symmetry. exact E.
           ++ intros H3. apply H2. right. exact H3.
Qed.

(** X15.  The destructor returns only on a context that is not null and is
    allocated, each of whose strings and whose reply of the render query is
    null or an allocated block, these blocks all different from one another
    and from the context.  On a context with a dangling member, with one
    block in two members, or that is its own member, its behaviour is
    undefined. *)
Theorem context_free_returns_only_if :
  forall (h h' : heap) (c : pointer),
    xcb_cursor_context_free h c = Returns h' ->
    c <> NULL /\ In c (live h) /\
    exists b,
      lookup_block c (contexts h) = Some b /\
      NoDup (owned b ++ [c]) /\
      incl (owned b) (live h) /\
      forall q, In q (live h') <-> In q (live h) /\ ~ In q (owned b ++ [c]).
Proof.
  intros h h' c H. rewrite xcb_cursor_context_free_members in H.
  assert (Hl : exists b, load h c = Returns b).
  { simpl free_members in H. destruct (load h c) as [b|]; [exists b; reflexivity|discriminate]. }
  destruct Hl as [b Hl]. destruct (load_returns h c b Hl) as (Hc & Hlive & Hb).
  destruct (free_members h c [b_rm_theme; b_rm_size; b_rm_dpi; b_pf_reply])
    as [h1|] eqn:Em; [|discriminate].
  simpl bind in H.
  destruct (free_members_returns c b _ h h1 Hb Em) as (Hnd & Hin & Hctx & Hl1).
  change (filter nonnull (map (fun f => f b)
            [b_rm_theme; b_rm_size; b_rm_dpi; b_pf_reply])) with (owned b) in *.
  destruct (free_returns h1 h' c H) as [[E|Hc1] ->]; [contradiction|].
  apply Hl1 in Hc1. destruct Hc1 as [_ Hnc].
  split; [exact Hc|]. split; [exact Hlive|]. exists b.
  split; [exact Hb|]. split; [|split; [exact Hin|]].
  - apply NoDup_app; [exact Hnd|repeat constructor; intros []|].
    intros q Hq [<-|[]]. contradiction.
  - intros q. rewrite released_live, Hl1, in_app_iff. simpl. split.
    + intros [[H1 H2] [H3|H3]]; [contradiction|].
      split; [exact H1|]. intros [H4|[H4|[]]]; [contradiction|congruence].
    + intros [H1 H2]. split; [split; [exact H1|]|right].
      * intros H3. apply H2. left. exact H3.
      * intros E. apply H2. right. left. symmetry. exact E.
Qed.

Lemma context_free_returns_only_if_witness :
  10 <> NULL /\ In 10 (live heap_one) /\
  exists b,
    lookup_block 10 (contexts heap_one) = Some b /\
    NoDup (owned b ++ [10]) /\
    incl (owned b) (live heap_one) /\
    forall q, In q (live (mk_heap [50] [(10, mk_block 20 NULL 30 40)])) <->
              In q (live heap_one) /\ ~ In q (owned b ++ [10]).
Proof.
  apply (context_free_returns_only_if heap_one
           (mk_heap [50] [(10, mk_block 20 NULL 30 40)]) 10).
  reflexivity.
Defined.

(** X16.  After the destructor has returned, the context is not allocated
    any more, and a second call on it, on the heap the first has left, has
    undefined behaviour. *)
Theorem context_free_twice_undefined :
  forall (h h' : heap) (c : pointer),
    xcb_cursor_context_free h c = Returns h' ->
    ~ In c (live h') /\ xcb_cursor_context_free h' c = Undefined.
Proof.
  intros h h' c H. rewrite xcb_cursor_context_free_members in H.
  destruct (free_members h c [b_rm_theme; b_rm_size; b_rm_dpi; b_pf_reply])
    as [h1|] eqn:Em; [|discriminate].
  simpl bind in H.
  destruct (free_returns h1 h' c H) as [Hc ->].
  assert (Hne : c <> NULL).
  { simpl free_members in Em. destruct (load h c) as [b|] eqn:El; [|discriminate].
    exact (proj1 (load_returns h c b El)). }
  assert (Hn : ~ In c (live (released h1 c))).
  { intros Hq. apply released_live in Hq. destruct Hq as [_ [E|E]]; [contradiction|].
    apply E. reflexivity. }
  split; [exact Hn|].
  unfold xcb_cursor_context_free, load.
  destruct (Z.eqb_spec c NULL) as [E|_]; [contradiction|].
  destruct (is_live (released h1 c) c) eqn:Hl; [|reflexivity].
  apply is_live_In in Hl. contradiction.
Qed.

Lemma context_free_twice_undefined_witness :
  ~ In 10 (live (mk_heap [50] [(10, mk_block 20 NULL 30 40)])) /\
  xcb_cursor_context_free (mk_heap [50] [(10, mk_block 20 NULL 30 40)]) 10 =
    Undefined.
Proof.
  apply (context_free_twice_undefined heap_one). reflexivity.
Defined.

(** ** The parser on the heap *)

Lemma next_block_ok : allocator_ok next_block.
Proof.
  intros h. unfold next_block, NULL.
  assert (H : forall l q, In q l -> q <= fold_right Z.max 0 l).
  { induction l as [|x l IH]; intros q; simpl; [tauto|].
    intros [<-|Hq]; [lia|]. pose proof (IH q Hq). lia. }
  assert (H0 : forall l, 0 <= fold_right Z.max 0 l).
  { induction l as [|x l IH]; simpl; lia. }
  split.
  - pose proof (H0 (live h)). lia.
  - intros Hin. pose proof (H _ _ Hin). lia.
Qed.

Lemma in_owned (b : context_block) (q : pointer) :
  In q (owned b) <->
  q <> NULL /\
  (q = b_rm_theme b \/ q = b_rm_size b \/ q = b_rm_dpi b \/ q = b_pf_reply b).
Proof.
  unfold owned. rewrite filter_In. unfold nonnull. simpl.
  destruct (Z.eqb_spec q NULL); simpl; intuition congruence.
Qed.

Lemma member_owned (i : rm_index) (b : context_block) :
  member i b <> NULL -> In (member i b) (owned b).
Proof. intros H. apply in_owned. split; [exact H|]. destruct i; simpl; tauto. Qed.

Lemma member_set_same (i : rm_index) (b : context_block) (p : pointer) :
  member i (set_member i b p) = p.
Proof. destruct i; reflexivity. Qed.

Lemma member_set_other (i j : rm_index) (b : context_block) (p : pointer) :
  i <> j -> member j (set_member i b p) = member j b.
Proof. destruct i, j; intros H; try reflexivity; contradiction. Qed.

Lemma pf_reply_set (i : rm_index) (b : context_block) (p : pointer) :
  b_pf_reply (set_member i b p) = b_pf_reply b.
Proof. destruct i; reflexivity. Qed.

Lemma rm_index_dec (i j : rm_index) : {i = j} + {i <> j}.
Proof. decide equality. Qed.

Lemma in_owned_set (i : rm_index) (b : context_block) (p q : pointer) :
  In q (owned (set_member i b p)) -> q = p \/ In q (owned b).
Proof.
  rewrite !in_owned. intros [Hq H].
  destruct i; simpl in H; intuition.
Qed.

Lemma lookup_store (c : pointer) (b b0 : context_block)
    (l : list (pointer * context_block)) :
  lookup_block c l = Some b0 -> lookup_block c (store_block c b l) = Some b.
Proof.
  induction l as [|[q bq] l IH]; simpl; [discriminate|].
  destruct (Z.eqb_spec c q) as [->|Hne]; simpl.
  - rewrite Z.eqb_refl. reflexivity.
  - destruct (Z.eqb_spec c q); [contradiction|]. exact IH.
Qed.

Lemma NoDup_drop_middle (A M R : list pointer) :
  NoDup (A ++ M ++ R) -> NoDup (A ++ R).
Proof.
  induction M as [|x M IH]; [tauto|].
  intros H. apply IH. simpl in H. apply NoDup_remove_1 in H. exact H.
Qed.

Lemma NoDup_put_middle (A R : list pointer) (p : pointer) :
  NoDup (A ++ R) -> ~ In p (A ++ R) -> NoDup (A ++ p :: R).
Proof.
  induction A as [|a A IH]; simpl; intros Hnd Hp.
  - constructor; assumption.
  - inversion Hnd as [|? ? Ha Hnd']; subst. constructor.
    + rewrite in_app_iff in *. simpl. intros [H|[H|H]]; [tauto| |tauto].
      apply Hp. left. symmetry. exact H.
    + apply IH; [exact Hnd'|]. intros H. apply Hp. right. exact H.
Qed.

Lemma members_split (i : rm_index) (b : context_block) (p : pointer) :
  exists l1 l2,
    [b_rm_theme b; b_rm_size b; b_rm_dpi b; b_pf_reply b] =
      l1 ++ member i b :: l2 /\
    [b_rm_theme (set_member i b p); b_rm_size (set_member i b p);
     b_rm_dpi (set_member i b p); b_pf_reply (set_member i b p)] =
      l1 ++ p :: l2.
Proof.
  destruct i; simpl.
  - exists [], [b_rm_size b; b_rm_dpi b; b_pf_reply b]. split; reflexivity.
  - exists [b_rm_theme b], [b_rm_dpi b; b_pf_reply b]. split; reflexivity.
  - exists [b_rm_theme b; b_rm_size b], [b_pf_reply b]. split; reflexivity.
Qed.

(** A member overwritten with the address of a block that is not in use:
    the context stays one that the destructor can be called on. *)
Lemma context_ok_set (h : heap) (c : pointer) (b : context_block)
    (i : rm_index) (p : pointer) :
  context_ok h c b -> p <> NULL -> ~ In p (live h) ->
  context_ok (mk_heap (p :: live h)
                      (store_block c (set_member i b p) (contexts h)))
             c (set_member i b p).
Proof.
  intros (Hc & Hl & Hb & Hnd & Hin) Hp Hfresh.
  split; [exact Hc|]. split; [right; exact Hl|]. split; [|split].
  - simpl. apply (lookup_store c _ b). exact Hb.
  - destruct (members_split i b p) as (l1 & l2 & E1 & E2).
    unfold owned in *. rewrite E1 in Hnd, Hin. rewrite E2.
    rewrite filter_app in *. rewrite filter_nonnull_cons in *.
    destruct (Z.eqb_spec p NULL) as [E|_]; [contradiction|].
    assert (Hnd' : NoDup (filter nonnull l1 ++ filter nonnull l2 ++ [c])).
    { rewrite <- app_assoc in Hnd.
      destruct (member i b =? NULL); [exact Hnd|].
      apply (NoDup_drop_middle (filter nonnull l1) [member i b]). exact Hnd. }
    rewrite <- app_assoc. simpl.
    apply NoDup_put_middle; [exact Hnd'|].
    rewrite !in_app_iff. simpl. intros [H|[H|[H|[]]]].
    + apply Hfresh. apply Hin. apply in_or_app. left. exact H.
    + apply Hfresh. apply Hin. apply in_or_app. right.
      destruct (member i b =? NULL); [exact H|right; exact H].
    + apply Hfresh. rewrite <- H. exact Hl.
  - intros q Hq. simpl. destruct (in_owned_set i b p q Hq) as [->|H];
      [left; reflexivity|right; apply Hin; exact H].
Qed.

Lemma rm_get_set_rm (c : xcb_cursor_context_t) (i : rm_index) :
  rm_get (set_rm zeroed_context (rm c)) i = rm_get c i.
Proof. destruct i; reflexivity. Qed.

Section OnTheHeap.

Variable alloc : allocator.
Hypothesis alloc_fresh : allocator_ok alloc.
Variable c : pointer.

Lemma assign_m_returns (m : memory) (b : context_block) (i : rm_index)
    (sep : cstring) (cp : xcb_cursor_context_t) :
  context_ok (blocks m) c b -> stands_for m b (rm cp) ->
  let p := alloc (blocks m) in
  let m' := mk_memory
              (mk_heap (p :: live (blocks m))
                       (store_block c (set_member i b p) (contexts (blocks m))))
              ((p, sep) :: strings m) in
  assign_m alloc m c i sep = Returns m' /\
  context_ok (blocks m') c (set_member i b p) /\
  stands_for m' (set_member i b p) (rm (rm_set cp i (Some sep))).
Proof.
  intros Hok Hst p m'. destruct (alloc_fresh (blocks m)) as [Hp Hfresh].
  fold p in Hp, Hfresh.
  pose proof Hok as (Hc & Hl & Hb & Hnd & Hin).
  split; [|split].
  - unfold assign_m, new_string. fold p.
    rewrite (load_ok _ c b Hc); [reflexivity|right; exact Hl|exact Hb].
  - apply context_ok_set; assumption.
  - intros j. rewrite rm_get_set_rm. pose proof (Hst j) as Hj.
    rewrite rm_get_set_rm in Hj.
    destruct (rm_index_dec i j) as [<-|Hij].
    + rewrite member_set_same.
      replace (rm_get (rm_set cp i (Some sep)) i) with (Some sep)
        by (destruct i; reflexivity).
      split; [exact Hp|]. simpl. rewrite Z.eqb_refl. reflexivity.
    + rewrite (member_set_other i j b p Hij).
      replace (rm_get (rm_set cp i (Some sep)) j) with (rm_get cp j)
        by (destruct i, j; try reflexivity; contradiction).
      destruct (rm_get cp j) as [s|]; [|exact Hj].
      destruct Hj as [Hm Hs]. split; [exact Hm|]. simpl.
      destruct (Z.eqb_spec (member j b) p) as [E|_]; [|exact Hs].
      exfalso. apply Hfresh. rewrite <- E. apply Hin. apply member_owned. exact Hm.
Qed.

(** One turn of the loop on the heap, against the turn on the table. *)
Lemma parse_line_m_returns (m : memory) (b : context_block) (l : cstring)
    (cp : xcb_cursor_context_t) :
  context_ok (blocks m) c b -> stands_for m b (rm cp) -> ~ In NUL l ->
  match parse_line cp l with
  | None => parse_line_m alloc m c l = Returns None
  | Some cp' =>
      exists m' b',
        parse_line_m alloc m c l = Returns (Some m') /\
        context_ok (blocks m') c b' /\ stands_for m' b' (rm cp') /\
        b_pf_reply b' = b_pf_reply b /\
        ((m' = m /\ b' = b /\ forall i, names_key i l = false) \/
         (exists i, names_key i l = true /\
                    live (blocks m') = alloc (blocks m) :: live (blocks m) /\
                    b' = set_member i b (alloc (blocks m))))
  end.
Proof.
  intros Hok Hst Hnul. unfold parse_line, parse_line_m.
  destruct (strchr l COLON) as [k|] eqn:Ek; [|reflexivity].
  assert (Hk : ~ In NUL (firstn k l)).
  { intros H. apply Hnul. apply (firstn_incl k). exact H. }
  set (key := firstn k l) in *. set (sep := skip_spaces (skipn (S k) l)).
  assert (Hname : forall i, (strcmp key (key_name i) =? 0) = true ->
                            names_key i l = true).
  { intros i H. unfold names_key, line_value. rewrite Ek. fold key. rewrite H.
    reflexivity. }
  assert (Hnone : forall i, (strcmp key (key_name i) =? 0) = false ->
                            names_key i l = false).
  { intros i H. unfold names_key, line_value. rewrite Ek. fold key. rewrite H.
    reflexivity. }
  assert (Hset : forall i,
             exists m' b',
               (m' <- assign_m alloc m c i sep ;; Returns (Some m')) =
                 Returns (Some m') /\
               context_ok (blocks m') c b' /\
               stands_for m' b' (rm (rm_set cp i (Some sep))) /\
               b_pf_reply b' = b_pf_reply b /\
               live (blocks m') = alloc (blocks m) :: live (blocks m) /\
               b' = set_member i b (alloc (blocks m))).
  { intros i. destruct (assign_m_returns m b i sep cp Hok Hst) as (E & H1 & H2).
    eexists. eexists. rewrite E. simpl bind.
    split; [reflexivity|]. split; [exact H1|]. split; [exact H2|].
    split; [apply pf_reply_set|]. split; reflexivity. }
  change (lit "Xcursor.theme") with (key_name RM_XCURSOR_THEME).
  change (lit "Xcursor.size") with (key_name RM_XCURSOR_SIZE).
  change (lit "Xft.dpi") with (key_name RM_XFT_DPI).
  unfold strdup.
  destruct (strcmp key (key_name RM_XCURSOR_THEME) =? 0) eqn:E1.
  { destruct (Hset RM_XCURSOR_THEME) as (m' & b' & H1 & H2 & H3 & H4 & H5 & H6).
    exists m', b'. repeat (split; [assumption|]). right.
    exists RM_XCURSOR_THEME. split; [apply Hname; exact E1|]. split; assumption. }
  destruct (strcmp key (key_name RM_XCURSOR_SIZE) =? 0) eqn:E2.
  { destruct (Hset RM_XCURSOR_SIZE) as (m' & b' & H1 & H2 & H3 & H4 & H5 & H6).
    exists m', b'. repeat (split; [assumption|]). right.
    exists RM_XCURSOR_SIZE. split; [apply Hname; exact E2|]. split; assumption. }
  destruct (strcmp key (key_name RM_XFT_DPI) =? 0) eqn:E3.
  { destruct (Hset RM_XFT_DPI) as (m' & b' & H1 & H2 & H3 & H4 & H5 & H6).
    exists m', b'. repeat (split; [assumption|]). right.
    exists RM_XFT_DPI. split; [apply Hname; exact E3|]. split; assumption. }
  exists m, b. split; [reflexivity|]. split; [exact Hok|]. split; [exact Hst|].
  split; [reflexivity|]. left. split; [reflexivity|]. split; [reflexivity|].
  intros i. apply Hnone. destruct i; assumption.
Qed.

End OnTheHeap.

Lemma colon_split_unique (k1 r1 k2 r2 : cstring) :
  ~ In COLON k1 -> ~ In COLON k2 ->
  k1 ++ COLON :: r1 = k2 ++ COLON :: r2 -> k1 = k2.
Proof.
  intros H1 H2 E.
  pose proof (strchr_first k1 r1 COLON H1) as P.
  rewrite E, (strchr_first k2 r2 COLON H2) in P. injection P as P.
  apply (f_equal (firstn (length k1))) in E.
  rewrite firstn_app, Nat.sub_diag, firstn_all, firstn_O, app_nil_r in E.
  rewrite <- P, firstn_app, Nat.sub_diag, firstn_all, firstn_O, app_nil_r in E.
  exact E.
Qed.

Lemma names_key_unique (i j : rm_index) (l : cstring) :
  ~ In NUL l -> names_key i l = true -> names_key j l = true -> i = j.
Proof.
  unfold names_key. intros Hnul Hi Hj.
  destruct (line_value i l) as [v|] eqn:Vi; [|discriminate].
  destruct (line_value j l) as [w|] eqn:Vj; [|discriminate].
  destruct (line_value_shape i l v Hnul Vi) as (r1 & E1 & _).
  destruct (line_value_shape j l w Hnul Vj) as (r2 & E2 & _).
  apply key_names_differ. rewrite E1 in E2.
  exact (colon_split_unique _ _ _ _ (key_name_no_colon i) (key_name_no_colon j) E2).
Qed.

Lemma names_any_true (i : rm_index) (l : cstring) :
  names_key i l = true -> names_any l = true.
Proof.
  intros H. unfold names_any. simpl. destruct i; rewrite H;
    rewrite ?orb_true_r; reflexivity.
Qed.

Lemma names_any_false (l : cstring) :
  (forall i, names_key i l = false) -> names_any l = false.
Proof. intros H. unfold names_any. simpl. rewrite !H. reflexivity. Qed.

Lemma names_key_colon (i : rm_index) (l : cstring) :
  names_key i l = true -> exists k, strchr l COLON = Some k.
Proof.
  unfold names_key, line_value. destruct (strchr l COLON) as [k|]; [|discriminate].
  exists k. reflexivity.
Qed.

Lemma parse_line_colon_iff (cp : xcb_cursor_context_t) (l : cstring) :
  match parse_line cp l with
  | Some _ => exists k, strchr l COLON = Some k
  | None => strchr l COLON = None
  end.
Proof.
  unfold parse_line. destruct (strchr l COLON) as [k|]; [|reflexivity].
  destruct (strcmp _ _ =? 0); [exists k; reflexivity|].
  destruct (strcmp _ _ =? 0); [exists k; reflexivity|].
  destruct (strcmp _ _ =? 0); exists k; reflexivity.
Qed.

Section RunOnTheHeap.

Variable alloc : allocator.
Hypothesis alloc_fresh : allocator_ok alloc.
Variable c : pointer.

(** The loop body over the lines, on the heap: it returns, the context
    stays one for the destructor and stands for the table that the lines
    give, and a block is allocated, and left allocated, for every line
    reached that names a key. *)
Lemma run_lines_m_returns (ls : list cstring) :
  Forall (fun l => ~ In NUL l) ls ->
  forall (m : memory) (b : context_block) (cp : xcb_cursor_context_t),
    context_ok (blocks m) c b -> stands_for m b (rm cp) ->
    exists m' b' allocs,
      run_lines_m alloc m c ls = Returns m' /\
      context_ok (blocks m') c b' /\
      stands_for m' b' (rm (run_lines cp ls)) /\
      b_pf_reply b' = b_pf_reply b /\
      live (blocks m') = allocs ++ live (blocks m) /\
      NoDup allocs /\
      (forall a, In a allocs -> a <> NULL /\ ~ In a (live (blocks m))) /\
      length allocs = length (filter names_any (scanned ls)) /\
      (forall i, member i b' = member i b \/
                 (In (member i b') allocs /\
                  exists l, In l (scanned ls) /\ names_key i l = true)) /\
      (forall i, (exists l, In l (scanned ls) /\ names_key i l = true) ->
                 In (member i b') allocs) /\
      (forall i ls1 lj ls2,
          scanned ls = ls1 ++ lj :: ls2 -> names_key i lj = true ->
          (exists l, In l ls2 /\ names_key i l = true) ->
          exists a, In a allocs /\ ~ In a (owned b')) /\
      ((forall i, (length (filter (names_key i) (scanned ls)) <= 1)%nat) ->
       forall a, In a allocs -> exists i, a = member i b').
Proof.
  induction 1 as [|l ls Hnul _ IH]; intros m b cp Hok Hst.
  - exists m, b, []. simpl.
    split; [reflexivity|]. split; [exact Hok|]. split; [exact Hst|].
    split; [reflexivity|]. split; [reflexivity|]. split; [constructor|].
    split; [intros a []|]. split; [reflexivity|].
    split; [intros i; left; reflexivity|].
    split; [intros i (l' & [] & _)|].
    split; [intros i ls1 lj ls2 E; destruct ls1; discriminate E|].
    intros _ a [].
  - simpl run_lines_m. simpl run_lines. simpl scanned.
    pose proof (parse_line_m_returns alloc alloc_fresh c m b l cp Hok Hst Hnul) as Hl.
    pose proof (parse_line_colon_iff cp l) as Hcol.
    destruct (parse_line cp l) as [cp'|].
    + destruct Hcol as [k Ek]. rewrite Ek.
      destruct Hl as (m1 & b1 & E1 & Hok1 & Hst1 & Hpf1 & Hcase).
      rewrite E1. simpl bind.
      destruct (IH m1 b1 cp' Hok1 Hst1)
        as (m' & b' & allocs & E & Hok' & Hst' & Hpf' & Hlive & Hnd & Hfr & Hlen
            & Hmem & Hnamed & Hleak & Honce).
      destruct Hcase as [(-> & -> & Hno)|(i0 & Hi0 & Hlive1 & ->)].
      * exists m', b', allocs. simpl filter. rewrite (names_any_false l Hno).
        do 8 (split; [assumption|]). split; [|split; [|split]].
        -- intros i. destruct (Hmem i) as [H|(H & l' & Hl' & Hn)]; [left; exact H|].
           right. split; [exact H|]. exists l'. split; [right; exact Hl'|exact Hn].
        -- intros i (l' & [<-|Hl'] & Hn); [rewrite Hno in Hn; discriminate|].
           apply Hnamed. exists l'. split; assumption.
        -- intros i ls1 lj ls2 Es Hj Hex. destruct ls1 as [|x ls1].
           ++ simpl in Es. injection Es as <- _. rewrite Hno in Hj. discriminate.
           ++ simpl in Es. injection Es as _ Es. exact (Hleak i ls1 lj ls2 Es Hj Hex).
        -- intros H1 q Hq. apply Honce; [|exact Hq].
           intros i. pose proof (H1 i) as H2. simpl filter in H2.
           rewrite Hno in H2. exact H2.
      * set (a := alloc (blocks m)) in *.
        destruct (alloc_fresh (blocks m)) as [Ha Hafresh]. fold a in Ha, Hafresh.
        exists m', b', (allocs ++ [a]). simpl filter.
        rewrite (names_any_true i0 l Hi0).
        split; [exact E|]. split; [exact Hok'|]. split; [exact Hst'|].
        split; [rewrite Hpf'; apply pf_reply_set|].
        split; [rewrite Hlive, Hlive1, <- app_assoc; reflexivity|].
        split; [|split; [|split; [|split; [|split; [|split]]]]].
        -- apply NoDup_app; [exact Hnd|repeat constructor; intros []|].
           intros q Hq [Eq|[]]. destruct (Hfr q Hq) as [_ Hq'].
           apply Hq'. rewrite Hlive1. left. exact Eq.
        -- intros q Hq. apply in_app_or in Hq. destruct Hq as [Hq|[<-|[]]].
           ++ destruct (Hfr q Hq) as [H1 H2]. split; [exact H1|].
              intros H3. apply H2. rewrite Hlive1. right. exact H3.
           ++ split; assumption.
        -- rewrite length_app, Hlen. simpl. lia.
        -- intros i. destruct (Hmem i) as [H|(H & l' & Hl' & Hn)].
           ++ destruct (rm_index_dec i0 i) as [<-|Hne].
              ** right. split.
                 --- rewrite H, member_set_same. apply in_or_app. right.
                     left. reflexivity.
                 --- exists l. split; [left; reflexivity|exact Hi0].
              ** left. rewrite H. apply member_set_other. exact Hne.
           ++ right. split; [apply in_or_app; left; exact H|].
              exists l'. split; [right; exact Hl'|exact Hn].
        -- intros i (l' & [<-|Hl'] & Hn).
           ++ assert (i0 = i) by (apply (names_key_unique i0 i l); assumption).
              subst i0. destruct (Hmem i) as [H|[H _]].
              ** rewrite H, member_set_same. apply in_or_app. right. left. reflexivity.
              ** apply in_or_app. left. exact H.
           ++ apply in_or_app. left. apply Hnamed. exists l'. split; assumption.
        -- intros i ls1 lj ls2 Es Hj Hex. destruct ls1 as [|x ls1].
           ++ simpl in Es. injection Es as <- Es.
              assert (i0 = i) by (apply (names_key_unique i0 i l); assumption).
              subst i0. exists a. split; [apply in_or_app; right; left; reflexivity|].
              assert (Hfa : forall q, In q allocs -> q <> a).
              { intros q Hq Eq. destruct (Hfr q Hq) as [_ Hq']. apply Hq'.
                rewrite Hlive1. left. symmetry. exact Eq. }
              assert (Hold : forall q, In q (owned b) -> q <> a).
              { intros q Hq Eq. apply Hafresh. rewrite <- Eq.
                destruct Hok as (_ & _ & _ & _ & Hin). apply Hin. exact Hq. }
              assert (Hi' : In (member i b') allocs).
              { apply Hnamed. rewrite Es. exact Hex. }
              intros Ho. apply in_owned in Ho. destruct Ho as [_ Ho].
              assert (Hj' : forall j, a = member j b' -> False).
              { intros j Ej. destruct (rm_index_dec i j) as [<-|Hne].
                - apply (Hfa _ Hi'). symmetry. exact Ej.
                - destruct (Hmem j) as [H|[H _]].
                  + rewrite H, (member_set_other i j b a Hne) in Ej.
                    apply (Hold (member j b)); [|symmetry; exact Ej].
                    apply member_owned. rewrite <- Ej. exact Ha.
                  + apply (Hfa _ H). symmetry. exact Ej. }
              destruct Ho as [H|[H|[H|H]]].
              ** exact (Hj' RM_XCURSOR_THEME H).
              ** exact (Hj' RM_XCURSOR_SIZE H).
              ** exact (Hj' RM_XFT_DPI H).
              ** rewrite Hpf', pf_reply_set in H.
                 apply (Hold (b_pf_reply b)); [|symmetry; exact H].
                 apply in_owned. split; [rewrite <- H; exact Ha|tauto].
           ++ simpl in Es. injection Es as _ Es.
              destruct (Hleak i ls1 lj ls2 Es Hj Hex) as (q & Hq & Hqo).
              exists q. split; [apply in_or_app; left; exact Hq|exact Hqo].
        -- intros H1 q Hq.
           assert (Htail : forall i,
                      (length (filter (names_key i) (scanned ls)) <= 1)%nat).
           { intros i. pose proof (H1 i) as H2. simpl filter in H2.
             destruct (names_key i l); simpl in H2; lia. }
           apply in_app_or in Hq. destruct Hq as [Hq|[Eq|[]]].
           ++ exact (Honce Htail q Hq).
           ++ exists i0. destruct (Hmem i0) as [H|(_ & l' & Hl' & Hn)].
              ** rewrite H, member_set_same. symmetry. exact Eq.
              ** exfalso. pose proof (H1 i0) as H2. simpl filter in H2.
                 rewrite Hi0 in H2. simpl in H2.
                 assert (H3 : In l' (filter (names_key i0) (scanned ls))).
                 { apply filter_In. split; assumption. }
                 destruct (filter (names_key i0) (scanned ls)); [destruct H3|].
                 simpl in H2. lia.
    + rewrite Hcol, Hl. simpl bind.
      exists m, b, []. simpl.
      split; [reflexivity|]. split; [exact Hok|]. split; [exact Hst|].
      split; [reflexivity|]. split; [reflexivity|]. split; [constructor|].
      split; [intros a []|]. split; [reflexivity|].
      split; [intros i; left; reflexivity|].
      split; [intros i (l' & [] & _)|].
      split; [intros i ls1 lj ls2 E; destruct ls1; discriminate E|].
      intros _ a [].
Qed.

Lemma parse_loop_m_resume (rm : pointer) (fuel : nat) :
  forall m sp, (length sp < fuel)%nat ->
    parse_loop_m alloc fuel m c rm None sp =
    (m' <- run_lines_m alloc m c (nonempty_lines sp) ;; free_m m' rm).
Proof.
  induction fuel as [|fuel IH]; intros m sp Hlen; [lia|].
  simpl parse_loop_m. rewrite strtok_r_resume.
  pose proof (strtok_r_lines sp []) as H.
  destruct (strtok_r (Some sp) [LF] []) as [[tok|] sp'].
  - cbv beta iota in H. destruct H as [Htok Hlt]. rewrite Htok. simpl run_lines_m.
    destruct (parse_line_m alloc m c tok) as [[m1|]|]; simpl bind; try reflexivity.
    apply IH. lia.
  - rewrite H. reflexivity.
Qed.

Lemma parse_loop_m_lines (rm : pointer) (fuel : nat) (m : memory) (s sp : cstring) :
  (length s < fuel)%nat ->
  parse_loop_m alloc fuel m c rm (Some s) sp =
  (m' <- run_lines_m alloc m c (nonempty_lines s) ;; free_m m' rm).
Proof.
  destruct fuel as [|fuel]; intros Hlen; [lia|].
  simpl parse_loop_m.
  pose proof (strtok_r_lines s sp) as H.
  destruct (strtok_r (Some s) [LF] sp) as [[tok|] sp'].
  - cbv beta iota in H. destruct H as [Htok Hlt]. rewrite Htok. simpl run_lines_m.
    destruct (parse_line_m alloc m c tok) as [[m1|]|]; simpl bind; try reflexivity.
    apply parse_loop_m_resume. lia.
  - rewrite H. reflexivity.
Qed.

End RunOnTheHeap.

Lemma scanned_colon (ls : list cstring) :
  Forall (fun l => exists k, strchr l COLON = Some k) (scanned ls).
Proof.
  induction ls as [|l ls IH]; simpl; [constructor|].
  destruct (strchr l COLON) as [k|] eqn:E; constructor; [exists k; exact E|exact IH].
Qed.

Lemma scanned_all (ls : list cstring) :
  Forall (fun l => exists k, strchr l COLON = Some k) ls -> scanned ls = ls.
Proof.
  induction 1 as [|l ls [k Hk] _ IH]; simpl; [reflexivity|].
  rewrite Hk, IH. reflexivity.
Qed.

Lemma scanned_app (l1 l2 : list cstring) :
  Forall (fun l => exists k, strchr l COLON = Some k) l1 ->
  scanned (l1 ++ l2) = l1 ++ scanned l2.
Proof.
  induction 1 as [|l ls [k Hk] _ IH]; simpl; [reflexivity|].
  rewrite Hk, IH. reflexivity.
Qed.

Lemma context_ok_released (h : heap) (c : pointer) (b : context_block) (p : pointer) :
  context_ok h c b -> p <> c -> ~ In p (owned b) ->
  context_ok (released h p) c b.
Proof.
  intros (Hc & Hl & Hb & Hnd & Hin) Hpc Hpo.
  split; [exact Hc|]. split; [|split; [|split; [exact Hnd|]]].
  - apply released_live. split; [exact Hl|]. right. intros E. apply Hpc.
    symmetry. exact E.
  - rewrite released_contexts. exact Hb.
  - intros q Hq. apply released_live. split; [apply Hin; exact Hq|].
    right. intros E. apply Hpo. rewrite <- E. exact Hq.
Qed.

(** On a context that is in order the destructor returns, and releases the
    blocks the context owns and the context. *)
Lemma context_free_ok (h : heap) (c : pointer) (b : context_block) :
  context_ok h c b ->
  exists h',
    xcb_cursor_context_free h c = Returns h' /\
    forall q, In q (live h') <-> In q (live h) /\ ~ In q (owned b ++ [c]).
Proof.
  intros (Hc & Hl & Hb & Hnd & Hin).
  assert (Hnc : ~ In c (owned b)).
  { pose proof (NoDup_remove_2 _ _ _ Hnd) as H. rewrite app_nil_r in H. exact H. }
  assert (Hnd1 : NoDup (owned b)).
  { pose proof (NoDup_remove_1 _ _ _ Hnd) as H. rewrite app_nil_r in H. exact H. }
  assert (Hnc' : ~ In c [b_rm_theme b; b_rm_size b; b_rm_dpi b; b_pf_reply b]).
  { intros H. apply Hnc. unfold owned. apply filter_In. split; [exact H|].
    unfold nonnull. destruct (Z.eqb_spec c NULL); [contradiction|reflexivity]. }
  destruct (free_members_ok c b [b_rm_theme; b_rm_size; b_rm_dpi; b_pf_reply]
              Hc h Hl Hb Hnd1 Hin Hnc') as (h1 & Hf & Hctx & Hlive).
  rewrite xcb_cursor_context_free_members, Hf. simpl bind.
  assert (Hc1 : In c (live h1)).
  { apply Hlive. split; [exact Hl|exact Hnc]. }
  rewrite (free_ok h1 c (or_intror Hc1)).
  exists (released h1 c). split; [reflexivity|].
  intros q. rewrite released_live, Hlive. fold (owned b).
  rewrite in_app_iff. simpl. split.
  - intros [[H1 H2] [H3|H3]]; [contradiction|].
    split; [exact H1|]. intros [H4|[H4|[]]]; [contradiction|congruence].
  - intros [H1 H2]. split; [split; [exact H1|]|right].
    + intros H3. apply H2. left. exact H3.
    + intros E. apply H2. right. left. symmetry. exact E.
Qed.

Lemma members_around (i : rm_index) (b : context_block) :
  exists l1 l2,
    [b_rm_theme b; b_rm_size b; b_rm_dpi b; b_pf_reply b] =
      l1 ++ member i b :: l2 /\
    (forall j, j <> i -> In (member j b) (l1 ++ l2)) /\
    In (b_pf_reply b) (l1 ++ l2).
Proof.
  destruct i; simpl.
  - exists [], [b_rm_size b; b_rm_dpi b; b_pf_reply b].
    split; [reflexivity|]. split; [|simpl; tauto].
    intros j Hj. destruct j; simpl; tauto.
  - exists [b_rm_theme b], [b_rm_dpi b; b_pf_reply b].
    split; [reflexivity|]. split; [|simpl; tauto].
    intros j Hj. destruct j; simpl; tauto.
  - exists [b_rm_theme b; b_rm_size b], [b_pf_reply b].
    split; [reflexivity|]. split; [|simpl; tauto].
    intros j Hj. destruct j; simpl; tauto.
Qed.

(** The members of a context that is in order do not share a block. *)
Lemma members_distinct (h : heap) (c : pointer) (b : context_block) (i : rm_index) :
  context_ok h c b -> member i b <> NULL ->
  (forall j, j <> i -> member j b <> member i b) /\
  b_pf_reply b <> member i b /\ c <> member i b.
Proof.
  intros (Hc & Hl & Hb & Hnd & Hin) Hm.
  destruct (members_around i b) as (l1 & l2 & E & Hothers & Hpf).
  assert (Hout : ~ In (member i b) (l1 ++ l2)).
  { pose proof (NoDup_remove_1 _ _ _ Hnd) as H. rewrite app_nil_r in H.
    unfold owned in H. rewrite E, filter_app, filter_nonnull_cons in H.
    destruct (Z.eqb_spec (member i b) NULL) as [E0|_]; [contradiction|].
    apply NoDup_remove_2 in H. intros Hq. apply H.
    rewrite <- filter_app. apply filter_In. split; [exact Hq|].
    unfold nonnull. destruct (Z.eqb_spec (member i b) NULL); [contradiction|reflexivity]. }
  split; [|split].
  - intros j Hj E'. apply Hout. rewrite <- E'. apply Hothers. exact Hj.
  - intros E'. apply Hout. rewrite <- E'. exact Hpf.
  - intros E'. pose proof (NoDup_remove_2 _ _ _ Hnd) as H. rewrite app_nil_r in H.
    apply H. rewrite E'. apply member_owned. exact Hm.
Qed.

Section ParseOnTheHeap.

Variable alloc : allocator.
Hypothesis alloc_fresh : allocator_ok alloc.
Variable c : pointer.

Lemma run_lines_m_scanned (ls : list cstring) :
  forall m, run_lines_m alloc m c ls = run_lines_m alloc m c (scanned ls).
Proof.
  induction ls as [|l ls IH]; intros m; [reflexivity|].
  simpl. destruct (strchr l COLON) as [k|] eqn:E.
  - simpl. destruct (parse_line_m alloc m c l) as [[m1|]|]; simpl; try reflexivity.
    apply IH.
  - unfold parse_line_m. rewrite E. reflexivity.
Qed.

Lemma run_lines_m_app (l1 l2 : list cstring) :
  Forall (fun l => exists k, strchr l COLON = Some k) l1 ->
  forall m,
    run_lines_m alloc m c (l1 ++ l2) =
    (m' <- run_lines_m alloc m c l1 ;; run_lines_m alloc m' c l2).
Proof.
  induction 1 as [|l ls [k Hk] _ IH]; intros m; [reflexivity|].
  simpl. destruct (parse_line_m alloc m c l) as [[m1|]|] eqn:E; simpl;
    try reflexivity.
  - apply IH.
  - unfold parse_line_m in E. rewrite Hk in E.
    destruct (strcmp _ _ =? 0);
      [destruct (assign_m alloc m c _ _); discriminate|].
    destruct (strcmp _ _ =? 0);
      [destruct (assign_m alloc m c _ _); discriminate|].
    destruct (strcmp _ _ =? 0);
      [destruct (assign_m alloc m c _ _); discriminate|discriminate].
Qed.

(** The parser on the heap is the copy of the text, the loop body over its
    lines, and the release of the copy. *)
Lemma parse_resource_manager_m_lines (m : memory) (bl : list ascii) :
  bl <> [] ->
  parse_resource_manager_m alloc m c (Some (mk_reply bl)) =
  (m' <- run_lines_m alloc (snd (new_string alloc m (until_nul bl))) c
           (nonempty_lines (until_nul bl)) ;;
   free_m m' (fst (new_string alloc m (until_nul bl)))).
Proof.
  intros Hne. unfold parse_resource_manager_m, xcb_get_property_value_length,
    asprintf_s. simpl value.
  destruct (Nat.eqb (length bl) 0) eqn:E.
  - apply Nat.eqb_eq in E. destruct bl; [contradiction|discriminate].
  - rewrite firstn_all. unfold new_string. simpl fst. simpl snd.
    apply parse_loop_m_lines. lia.
Qed.

End ParseOnTheHeap.

Lemma stands_for_strings (m m' : memory) (b : context_block) (a : rm_array) :
  strings m' = strings m -> stands_for m b a -> stands_for m' b a.
Proof. intros E H i. pose proof (H i) as Hi. rewrite E. exact Hi. Qed.

Section ParseOnTheHeapReturns.

Variable alloc : allocator.
Hypothesis alloc_fresh : allocator_ok alloc.
Variable c : pointer.

Lemma parse_m_returns (m : memory) (b : context_block)
    (cp : xcb_cursor_context_t) (r : option xcb_get_property_reply_t) :
  context_ok (blocks m) c b -> stands_for m b (rm cp) ->
  exists m' b' allocs,
    parse_resource_manager_m alloc m c r = Returns m' /\
    context_ok (blocks m') c b' /\
    stands_for m' b' (rm (parse_resource_manager cp r)) /\
    b_pf_reply b' = b_pf_reply b /\
    live (blocks m') = allocs ++ live (blocks m) /\
    NoDup allocs /\
    (forall a, In a allocs -> a <> NULL /\ ~ In a (live (blocks m))) /\
    length allocs = length (filter names_any (reached r)) /\
    (forall i, member i b' = member i b \/
               (In (member i b') allocs /\
                exists l, In l (reached r) /\ names_key i l = true)) /\
    (forall i ls1 lj ls2,
        reached r = ls1 ++ lj :: ls2 -> names_key i lj = true ->
        (exists l, In l ls2 /\ names_key i l = true) ->
        exists a, In a allocs /\ ~ In a (owned b')) /\
    ((forall i, (length (filter (names_key i) (reached r)) <= 1)%nat) ->
     forall a, In a allocs -> exists i, a = member i b').
Proof.
  intros Hok Hst.
  assert (Hnothing :
            parse_resource_manager_m alloc m c r = Returns m ->
            parse_resource_manager cp r = cp -> reached r = [] ->
            exists m' b' allocs,
              parse_resource_manager_m alloc m c r = Returns m' /\
              context_ok (blocks m') c b' /\
              stands_for m' b' (rm (parse_resource_manager cp r)) /\
              b_pf_reply b' = b_pf_reply b /\
              live (blocks m') = allocs ++ live (blocks m) /\
              NoDup allocs /\
              (forall a, In a allocs -> a <> NULL /\ ~ In a (live (blocks m))) /\
              length allocs = length (filter names_any (reached r)) /\
              (forall i, member i b' = member i b \/
                         (In (member i b') allocs /\
                          exists l, In l (reached r) /\ names_key i l = true)) /\
              (forall i ls1 lj ls2,
                  reached r = ls1 ++ lj :: ls2 -> names_key i lj = true ->
                  (exists l, In l ls2 /\ names_key i l = true) ->
                  exists a, In a allocs /\ ~ In a (owned b')) /\
              ((forall i, (length (filter (names_key i) (reached r)) <= 1)%nat) ->
               forall a, In a allocs -> exists i, a = member i b')).
  { intros E1 E2 E3. exists m, b, []. rewrite E1, E2, E3. simpl.
    split; [reflexivity|]. split; [exact Hok|]. split; [exact Hst|].
    split; [reflexivity|]. split; [reflexivity|]. split; [constructor|].
    split; [intros a []|]. split; [reflexivity|].
    split; [intros i; left; reflexivity|].
    split; [intros i ls1 lj ls2 E; destruct ls1; discriminate E|].
    intros _ a []. }
  destruct r as [[bl]|]; [|apply Hnothing; reflexivity].
  destruct bl as [|x bl]; [apply Hnothing; reflexivity|].
  clear Hnothing. remember (x :: bl) as text eqn:Etext.
  assert (Hne : text <> []) by (rewrite Etext; discriminate).
  clear Etext.
  rewrite (parse_resource_manager_m_lines alloc c m text Hne).
  rewrite parse_resource_manager_lines. unfold reached. simpl value.
  unfold new_string. simpl fst. simpl snd.
  set (p := alloc (blocks m)).
  destruct (alloc_fresh (blocks m)) as [Hp Hfresh]. fold p in Hp, Hfresh.
  set (m1 := mk_memory (mk_heap (p :: live (blocks m)) (contexts (blocks m)))
                       ((p, until_nul text) :: strings m)).
  pose proof Hok as (Hc & Hl & Hb & Hnd & Hin).
  assert (Hok1 : context_ok (blocks m1) c b).
  { split; [exact Hc|]. split; [right; exact Hl|]. split; [exact Hb|].
    split; [exact Hnd|]. intros q Hq. right. apply Hin. exact Hq. }
  assert (Hst1 : stands_for m1 b (rm cp)).
  { intros i. pose proof (Hst i) as Hi.
    destruct (rm_get (set_rm zeroed_context (rm cp)) i) as [s|]; [|exact Hi].
    destruct Hi as [Hm Hs]. split; [exact Hm|]. simpl.
    destruct (Z.eqb_spec (member i b) p) as [E|_]; [|exact Hs].
    exfalso. apply Hfresh. rewrite <- E. apply Hin. apply member_owned. exact Hm. }
  destruct (run_lines_m_returns alloc alloc_fresh c _ (text_lines_no_nul text)
              m1 b cp Hok1 Hst1)
    as (m3 & b3 & allocs & E & Hok3 & Hst3 & Hpf3 & Hlive3 & Hnd3 & Hfr3 & Hlen3
        & Hmem3 & Hnamed3 & Hleak3 & Honce3).
  rewrite E. simpl bind. simpl in Hlive3.
  assert (Hp3 : In p (live (blocks m3))).
  { rewrite Hlive3. apply in_or_app. right. left. reflexivity. }
  unfold free_m. rewrite (free_ok (blocks m3) p (or_intror Hp3)). simpl bind.
  assert (Hpa : ~ In p allocs).
  { intros H. destruct (Hfr3 p H) as [_ H']. apply H'. left. reflexivity. }
  assert (Hpo : ~ In p (owned b3)).
  { intros H. apply in_owned in H. destruct H as [Hq H].
    assert (Hi : forall i, p = member i b3 -> False).
    { intros i Ei. destruct (Hmem3 i) as [H1|[H1 _]].
      - apply Hfresh. apply Hin. apply in_owned. split; [exact Hq|].
        rewrite Ei, H1. destruct i; simpl; tauto.
      - apply Hpa. rewrite Ei. exact H1. }
    destruct H as [H|[H|[H|H]]].
    - exact (Hi RM_XCURSOR_THEME H).
    - exact (Hi RM_XCURSOR_SIZE H).
    - exact (Hi RM_XFT_DPI H).
    - apply Hfresh. apply Hin. apply in_owned. split; [exact Hq|].
      rewrite H, Hpf3. tauto. }
  assert (Hpc : p <> c).
  { intros Epc. apply Hfresh. rewrite Epc. exact Hl. }
  exists (mk_memory (released (blocks m3) p) (strings m3)), b3, allocs.
  split; [reflexivity|].
  split; [apply context_ok_released; assumption|].
  split; [apply (stands_for_strings m3); [reflexivity|exact Hst3]|].
  split; [exact Hpf3|].
  split.
  { simpl blocks. unfold released.
    destruct (Z.eqb_spec p NULL) as [E0|_]; [contradiction|]. simpl live.
    rewrite Hlive3, remove_app, remove_cons, !notin_remove by assumption.
    reflexivity. }
  split; [exact Hnd3|].
  split.
  { intros a Ha. destruct (Hfr3 a Ha) as [H1 H2]. split; [exact H1|].
    intros H3. apply H2. right. exact H3. }
  split; [exact Hlen3|]. split; [exact Hmem3|]. split; [exact Hleak3|exact Honce3].
Qed.

End ParseOnTheHeapReturns.

(** X17.  On the heap the parser does what it does on the table.  Called on
    a context that is in order, one the destructor can be called on, whose
    members stand for a table, it returns; the context is in order
    afterwards and its members stand for the table that the parse gives; the
    reply of the render query is the one before; and every block that was
    allocated before the call is still allocated after it. *)
Theorem parse_on_heap_refines :
  forall (alloc : allocator), allocator_ok alloc ->
  forall (c : pointer) (m : memory) (b : context_block)
         (cp : xcb_cursor_context_t) (r : option xcb_get_property_reply_t),
    context_ok (blocks m) c b -> stands_for m b (rm cp) ->
    exists m' b',
      parse_resource_manager_m alloc m c r = Returns m' /\
      context_ok (blocks m') c b' /\
      stands_for m' b' (rm (parse_resource_manager cp r)) /\
      b_pf_reply b' = b_pf_reply b /\
      incl (live (blocks m)) (live (blocks m')).
Proof.
  intros alloc Hal c m b cp r Hok Hst.
  destruct (parse_m_returns alloc Hal c m b cp r Hok Hst)
    as (m' & b' & allocs & E & Hok' & Hst' & Hpf & Hlive & _).
  exists m', b'. repeat (split; [assumption|]).
  intros q Hq. rewrite Hlive. apply in_or_app. right. exact Hq.
Qed.

Lemma memory_one_ok :
  context_ok (blocks memory_one) 10 (mk_block NULL NULL NULL NULL).
Proof.
  unfold context_ok. simpl.
  split; [discriminate|]. split; [tauto|]. split; [reflexivity|].
  split; [repeat constructor; intros []|intros q []].
Qed.

Lemma memory_one_stands :
  stands_for memory_one (mk_block NULL NULL NULL NULL) (rm zeroed_context).
Proof. intros i. destruct i; reflexivity. Qed.

Lemma parse_on_heap_refines_witness :
  exists m' b',
    parse_resource_manager_m next_block memory_one 10
      (Some (mk_reply blob_dpi_twice)) = Returns m' /\
    context_ok (blocks m') 10 b' /\
    stands_for m' b'
      (rm (parse_resource_manager zeroed_context (Some (mk_reply blob_dpi_twice)))) /\
    b_pf_reply b' = b_pf_reply (mk_block NULL NULL NULL NULL) /\
    incl (live (blocks memory_one)) (live (blocks m')).
Proof.
  apply (parse_on_heap_refines next_block next_block_ok 10 memory_one
           (mk_block NULL NULL NULL NULL) zeroed_context).
  - exact memory_one_ok.
  - exact memory_one_stands.
Defined.

(** X18.  The parser leaves one block more allocated for every line it gets
    to that names one of the three keys, whether the key had been named
    before or not; the copy of the text is given back on both ways out of
    the loop. *)
Theorem parse_allocates_per_line :
  forall (alloc : allocator), allocator_ok alloc ->
  forall (c : pointer) (m : memory) (b : context_block)
         (cp : xcb_cursor_context_t) (r : option xcb_get_property_reply_t),
    context_ok (blocks m) c b -> stands_for m b (rm cp) ->
    exists m',
      parse_resource_manager_m alloc m c r = Returns m' /\
      (length (live (blocks m')) =
       length (filter names_any (reached r)) + length (live (blocks m)))%nat.
Proof.
  intros alloc Hal c m b cp r Hok Hst.
  destruct (parse_m_returns alloc Hal c m b cp r Hok Hst)
    as (m' & b' & allocs & E & _ & _ & _ & Hlive & _ & _ & Hlen & _).
  exists m'. split; [exact E|]. rewrite Hlive, length_app, Hlen. reflexivity.
Qed.

Lemma parse_allocates_per_line_witness :
  exists m',
    parse_resource_manager_m next_block memory_one 10
      (Some (mk_reply blob_dpi_bad_dpi)) = Returns m' /\
    (length (live (blocks m')) =
     length (filter names_any (reached (Some (mk_reply blob_dpi_bad_dpi)))) +
     length (live (blocks memory_one)))%nat.
Proof.
  apply (parse_allocates_per_line next_block next_block_ok 10 memory_one
           (mk_block NULL NULL NULL NULL) zeroed_context).
  - exact memory_one_ok.
  - exact memory_one_stands.
Defined.

(** X19.  The parser writes the address of the new string over the member
    without a [free] of what the member held.  So when two of the lines it
    gets to name the same key, the string of the first is lost: after the
    parse, and after the destructor that follows it, a block is allocated
    that was not allocated before the parse. *)
Theorem parse_leaks_overwritten_value :
  forall (alloc : allocator), allocator_ok alloc ->
  forall (c : pointer) (m : memory) (b : context_block)
         (cp : xcb_cursor_context_t) (r : option xcb_get_property_reply_t)
         (i : rm_index) (ls1 ls2 : list cstring) (lj : cstring),
    context_ok (blocks m) c b -> stands_for m b (rm cp) ->
    reached r = ls1 ++ lj :: ls2 -> names_key i lj = true ->
    (exists l, In l ls2 /\ names_key i l = true) ->
    exists m' h' p,
      parse_resource_manager_m alloc m c r = Returns m' /\
      xcb_cursor_context_free (blocks m') c = Returns h' /\
      ~ In p (live (blocks m)) /\ In p (live (blocks m')) /\ In p (live h').
Proof.
  intros alloc Hal c m b cp r i ls1 ls2 lj Hok Hst Hr Hj Hex.
  destruct (parse_m_returns alloc Hal c m b cp r Hok Hst)
    as (m' & b' & allocs & E & Hok' & _ & _ & Hlive & _ & Hfr & _ & _ & Hleak & _).
  destruct (Hleak i ls1 lj ls2 Hr Hj Hex) as (a & Ha & Hao).
  destruct (context_free_ok (blocks m') c b' Hok') as (h' & Ef & Hl').
  destruct (Hfr a Ha) as [_ Hfresh].
  assert (Hlive' : In a (live (blocks m'))).
  { rewrite Hlive. apply in_or_app. left. exact Ha. }
  exists m', h', a. split; [exact E|]. split; [exact Ef|].
  split; [exact Hfresh|]. split; [exact Hlive'|].
  apply Hl'. split; [exact Hlive'|].
  intros H. apply in_app_or in H. destruct H as [H|[H|[]]]; [contradiction|].
  apply Hfresh. rewrite <- H. destruct Hok as (_ & Hl & _). exact Hl.
Qed.

Lemma parse_leaks_overwritten_value_witness :
  exists m' h' p,
    parse_resource_manager_m next_block memory_one 10
      (Some (mk_reply blob_dpi_twice)) = Returns m' /\
    xcb_cursor_context_free (blocks m') 10 = Returns h' /\
    ~ In p (live (blocks memory_one)) /\ In p (live (blocks m')) /\ In p (live h').
Proof.
  apply (parse_leaks_overwritten_value next_block next_block_ok 10 memory_one
           (mk_block NULL NULL NULL NULL) zeroed_context
           (Some (mk_reply blob_dpi_twice)) RM_XFT_DPI
           [] [lit "Xft.dpi: 192"] (lit "Xft.dpi: 96")).
  - exact memory_one_ok.
  - exact memory_one_stands.
  - reflexivity.
  - reflexivity.
  - exists (lit "Xft.dpi: 192"). split; [left; reflexivity|reflexivity].
Defined.

(** X20.  On a context with nothing set, when none of the three keys is
    named by more than one of the lines the parser gets to, nothing is
    lost: after the parse and the destructor the blocks allocated are those
    allocated before the parse, without the context and the reply of the
    render query that it owned. *)
Theorem parse_then_free_gives_back :
  forall (alloc : allocator), allocator_ok alloc ->
  forall (c : pointer) (m : memory) (b : context_block)
         (r : option xcb_get_property_reply_t),
    context_ok (blocks m) c b ->
    (forall i, member i b = NULL) ->
    (forall i, (length (filter (names_key i) (reached r)) <= 1)%nat) ->
    exists m' h',
      parse_resource_manager_m alloc m c r = Returns m' /\
      xcb_cursor_context_free (blocks m') c = Returns h' /\
      forall q, In q (live h') <->
                In q (live (blocks m)) /\ ~ In q (owned b ++ [c]).
Proof.
  intros alloc Hal c m b r Hok Hnull Honce.
  assert (Hst : stands_for m b (rm zeroed_context)).
  { intros i. rewrite rm_get_set_rm. pose proof (Hnull i) as Hi.
    destruct i; exact Hi. }
  destruct (parse_m_returns alloc Hal c m b zeroed_context r Hok Hst)
    as (m' & b' & allocs & E & Hok' & _ & Hpf & Hlive & _ & Hfr & _ & Hmem & _
        & Hall).
  destruct (context_free_ok (blocks m') c b' Hok') as (h' & Ef & Hl').
  exists m', h'. split; [exact E|]. split; [exact Ef|].
  assert (Hown : forall q, In q (owned b') <-> In q allocs \/ In q (owned b)).
  { intros q. rewrite !in_owned. split.
    - intros [Hq H].
      assert (Hi : forall i, q = member i b' -> In q allocs).
      { intros i Ei. destruct (Hmem i) as [H1|[H1 _]]; [|rewrite Ei; exact H1].
        exfalso. apply Hq. rewrite Ei, H1. apply Hnull. }
      destruct H as [H|[H|[H|H]]].
      + left. exact (Hi RM_XCURSOR_THEME H).
      + left. exact (Hi RM_XCURSOR_SIZE H).
      + left. exact (Hi RM_XFT_DPI H).
      + right. split; [exact Hq|]. rewrite <- Hpf. tauto.
    - intros [Hq|[Hq H]].
      + destruct (Hfr q Hq) as [Hq0 _]. split; [exact Hq0|].
        destruct (Hall Honce q Hq) as [i ->]. destruct i; simpl; tauto.
      + split; [exact Hq|].
        pose proof (Hnull RM_XCURSOR_THEME) as N1.
        pose proof (Hnull RM_XCURSOR_SIZE) as N2.
        pose proof (Hnull RM_XFT_DPI) as N3. simpl in N1, N2, N3.
        rewrite Hpf. destruct H as [H|[H|[H|H]]]; try congruence. tauto. }
  intros q. rewrite Hl', Hlive, !in_app_iff, Hown. split.
  - intros [[H1|H1] H2]; [exfalso; apply H2; left; left; exact H1|].
    split; [exact H1|]. intros [H3|H3]; apply H2; [left; right; exact H3|right; exact H3].
  - intros [H1 H2]. split; [right; exact H1|].
    intros [[H3|H3]|H3].
    + destruct (Hfr q H3) as [_ H4]. contradiction.
    + apply H2. left. exact H3.
    + apply H2. right. exact H3.
Qed.

Lemma parse_then_free_gives_back_witness :
  exists m' h',
    parse_resource_manager_m next_block memory_one 10
      (Some (mk_reply (lit "Xcursor.theme: Adwaita" ++ [LF] ++
                       lit "Xcursor.size: 24"))) = Returns m' /\
    xcb_cursor_context_free (blocks m') 10 = Returns h' /\
    forall q, In q (live h') <->
              In q (live (blocks memory_one)) /\
              ~ In q (owned (mk_block NULL NULL NULL NULL) ++ [10]).
Proof.
  apply (parse_then_free_gives_back next_block next_block_ok 10 memory_one
           (mk_block NULL NULL NULL NULL)).
  - exact memory_one_ok.
  - intros i. destruct i; reflexivity.
  - intros i. destruct i; simpl; lia.
Defined.

(** ** The constructor on the heap *)




Section NewOnTheHeap.

Variable alloc : allocator.
Hypothesis alloc_fresh : allocator_ok alloc.



End NewOnTheHeap.



